(** * GPM precipitation service: raster extraction pipeline

    A shallow embedding of [app/services/gpm_service.py] and of the
    [/data] route of [app/api/routers/gpm.py], followed by the properties of
    the pipeline: schema resolution, the bounds cropper and its fallback,
    orientation normalisation, the sparse filter, the binary wire format,
    the error kinds and the lifetime of the dataset handle.

    Modelling conventions.
    - Bounds and thresholds are finite numbers, modelled by canonical
      rationals [Qc] (every finite float is one, and equal numbers are
      identical terms).  A cell of a field or of a coordinate is a NumPy
      float: a finite number in single or double precision, or NaN;
      infinite cells are outside the model.  Comparing an array with a
      Python float converts the float to the precision of the array.
    - A NumPy array is its shape together with its elements in C (row-major)
      order.
    - An xarray dataset is its list of named variables (coordinate variables
      included), each with its dimension names, and the ordered list of its
      coordinate names.  Label selection [Dataset.sel], the file system and
      the rounding to 32-bit floats belong to the environment [Env].
    - Python exceptions are values of [error]; a computation that touches the
      dataset handle runs in the monad [M], whose trace survives a raised
      exception. *)

From Stdlib Require Import String Ascii.
From Stdlib Require Import List Bool Arith NArith ZArith Lia.
From Stdlib Require Import QArith Qcanon.
From Stdlib.Strings Require Import Byte.
Import ListNotations.

Local Open Scope string_scope.
Local Open Scope list_scope.
Local Open Scope nat_scope.

Set Implicit Arguments.

(* ================================================================= *)
(** ** Numbers *)

(** [x > y] on finite numbers. *)
Definition gtb (x y : Qc) : bool :=
  match (x ?= y)%Qc with Gt => true | _ => false end.

(** Python's two-argument [min]: the second argument only when it is
    strictly smaller. *)
Definition py_min (a b : Qc) : Qc := if gtb a b then b else a.

(** Python's two-argument [max]: the second argument only when it is
    strictly greater. *)
Definition py_max (a b : Qc) : Qc := if gtb b a then b else a.

(** An integer literal as a number. *)
Definition num (z : Z) : Qc := Q2Qc (inject_Z z).

(** A decimal literal [n / d]. *)
Definition frac (n : Z) (d : positive) : Qc := Q2Qc (Qmake n d).

(* ================================================================= *)
(** ** Floating-point values *)

(** A 32-bit float, as its IEEE image: four bytes, least significant
    first.  This is the layout NumPy holds it in on a little-endian host
    and the layout that the format ['<f'] packs. *)
Record float32 : Type := mk_float32 {
  byte0 : byte; byte1 : byte; byte2 : byte; byte3 : byte
}.

(** The bit pattern of an image. *)
Definition float32_bits (f : float32) : Z :=
  (Z.of_N (Byte.to_N (byte0 f))
   + 256 * (Z.of_N (Byte.to_N (byte1 f))
            + 256 * (Z.of_N (Byte.to_N (byte2 f))
                     + 256 * Z.of_N (Byte.to_N (byte3 f)))))%Z.

(** The image is an infinity: exponent 255, fraction 0. *)
Definition is_inf32 (f : float32) : bool :=
  (float32_bits f mod 2 ^ 31 =? 2139095040)%Z.

(** The number an image stands for.  An infinity stands for 2^128 with its
    sign, which compares with every binary32 number as the infinity
    does. *)
Definition float32_value (f : float32) : Qc :=
  let z := float32_bits f in
  let e := ((z / 2 ^ 23) mod 256)%Z in
  let m := (z mod 2 ^ 23)%Z in
  let mag := if (e =? 0)%Z then Qmake m (2 ^ 149)
             else if (e <? 150)%Z
                  then Qmake (2 ^ 23 + m) (Z.to_pos (2 ^ (150 - e)))
                  else inject_Z ((2 ^ 23 + m) * 2 ^ (e - 150)) in
  Q2Qc (if (2 ^ 31 <=? z)%Z then Qopp mag else mag).

(** The image of NaN that [struct.pack] and NumPy write. *)
Definition nan32 : float32 := mk_float32 x00 x00 xc0 x7f.

(** The precision of a NumPy float: [np.float32] or [np.float64]. *)
Inductive precision : Type := Single | Double.

(** A cell of an array of floats: a finite number held in one of the two
    precisions, or NaN (what xarray puts where the file has its fill
    value).  The cells of one array have the precision of the array. *)
Inductive np_float : Type :=
| Num (p : precision) (q : Qc)
| NaN.

(** The Python float [t] as an operand of a comparison with a NumPy float
    of precision [p]: converted to binary32 (by the rounding [f32]) for a
    single, taken as it is for a double. *)
Definition as_precision (f32 : Qc -> float32) (p : precision) (t : Qc) : Qc :=
  match p with
  | Single => float32_value (f32 t)
  | Double => t
  end.

(** [c > t] for a cell and a Python float; NaN is greater than nothing. *)
Definition cell_gt (f32 : Qc -> float32) (c : np_float) (t : Qc) : bool :=
  match c with
  | Num p q => gtb q (as_precision f32 p t)
  | NaN => false
  end.

(** [np.maximum]: NaN wins; otherwise the second operand only when it is
    strictly greater. *)
Definition maximum (a b : np_float) : np_float :=
  match a, b with
  | NaN, _ => NaN
  | _, NaN => NaN
  | Num _ x, Num _ y => if gtb y x then b else a
  end.

(** [float(c)]: the same number as a Python float, a double. *)
Definition py_float (c : np_float) : np_float :=
  match c with
  | Num _ q => Num Double q
  | NaN => NaN
  end.

(** The cell with its number changed by [f]; NaN stays NaN. *)
Definition cell_map (f : Qc -> Qc) (c : np_float) : np_float :=
  match c with
  | Num p q => Num p (f q)
  | NaN => NaN
  end.

(** The cast of a cell to [np.float32], with the rounding [f32]. *)
Definition cast32 (f32 : Qc -> float32) (c : np_float) : float32 :=
  match c with
  | Num _ q => f32 q
  | NaN => nan32
  end.

(** Cells of single precision, from their numbers. *)
Definition singles (l : list Qc) : list np_float := map (Num Single) l.

(* ================================================================= *)
(** ** Exceptions *)

(** The error kinds of the pipeline.  [NotFound] is the
    [FileNotFoundError("GPM File not found")] raised by the existence
    check, [OpenFailure] whatever the second [xr.open_dataset] raises,
    [VariableNotFound] the [ValueError("Variable not found")], and
    [ProcessingFailure] any other exception (KeyError, IndexError,
    ValueError of NumPy, struct.error). *)
Inductive error : Type :=
| NotFound
| OpenFailure
| VariableNotFound
| ProcessingFailure.

Inductive result (A : Type) : Type :=
| Ok (a : A)
| Raise (e : error).

Arguments Ok {A} a.
Arguments Raise {A} e.

Definition succeeded {A} (r : result A) : bool :=
  match r with
  | Ok _ => true
  | Raise _ => false
  end.

Definition rbind {A B} (r : result A) (k : A -> result B) : result B :=
  match r with
  | Ok a => k a
  | Raise e => Raise e
  end.

Declare Scope result_scope.
Delimit Scope result_scope with result.
Notation "x <- r ;; k" := (rbind r (fun x => k))
  (at level 61, r at next level, right associativity) : result_scope.
Notation "' p <- r ;; k" := (rbind r (fun x => match x with p => k end))
  (at level 61, p pattern, r at next level, right associativity) : result_scope.

(** [mapM] in [result]: the first failure wins. *)
Fixpoint rmap {A B} (f : A -> result B) (l : list A) : result (list B) :=
  match l with
  | [] => Ok []
  | a :: l' =>
      match f a with
      | Ok b =>
          match rmap f l' with
          | Ok bs => Ok (b :: bs)
          | Raise e => Raise e
          end
      | Raise e => Raise e
      end
  end.

(* ================================================================= *)
(** ** NumPy arrays *)

Record ndarray (A : Type) : Type := mk_ndarray {
  shape : list nat;
  flat : list A        (* elements in C order *)
}.

Arguments mk_ndarray {A} shape flat.

Definition prod_shape (s : list nat) : nat := fold_right Nat.mul 1 s.

(** [a.size] *)
Definition size {A} (a : ndarray A) : nat := prod_shape (shape a).

(** A well-formed array holds exactly [size] elements. *)
Definition wf {A} (a : ndarray A) : Prop := length (flat a) = size a.

(** [a.squeeze()]: drop the axes of length one. *)
Definition squeeze {A} (a : ndarray A) : ndarray A :=
  mk_ndarray (filter (fun n => negb (n =? 1)) (shape a)) (flat a).

(** [len(a)]: the length of the first axis; a 0-d array has none
    (TypeError). *)
Definition np_len {A} (a : ndarray A) : result nat :=
  match shape a with
  | n :: _ => Ok n
  | [] => Raise ProcessingFailure
  end.

(** The element at row [i], column [j] of an array with [c] columns. *)
Definition cell {A} (c : nat) (l : list A) (i j : nat) : option A :=
  nth_error l (i * c + j).

Definition opt_list {A} (o : option A) : list A :=
  match o with Some x => [x] | None => [] end.

(** [a.T] for an [r] x [c] array: element [(j, i)] of the result is
    element [(i, j)] of [a]. *)
Definition transpose_flat {A} (r c : nat) (l : list A) : list A :=
  flat_map (fun j => flat_map (fun i => opt_list (cell c l i j)) (seq 0 r))
           (seq 0 c).

Definition T {A} (a : ndarray A) : ndarray A :=
  match shape a with
  | [r; c] => mk_ndarray [c; r] (transpose_flat r c (flat a))
  | _ => a     (* [.T] is only applied to 2-D arrays, see [orient] *)
  end.

(** [a > t], elementwise, for an array of floats and a Python float. *)
Definition np_gt (f32 : Qc -> float32) (a : ndarray np_float) (t : Qc)
  : ndarray bool :=
  mk_ndarray (shape a) (map (fun v => cell_gt f32 v t) (flat a)).

(** [y_idxs, x_idxs = np.where(mask)]: the row and column indices of the
    true cells, found by scanning the flat positions in increasing order.
    Unpacking into two names needs a 2-D mask (ValueError otherwise). *)
Definition np_where2 (mask : ndarray bool) : result (list nat * list nat) :=
  match shape mask with
  | [r; c] =>
      let ks := filter (fun k => nth k (flat mask) false) (seq 0 (r * c)) in
      Ok (map (fun k => k / c) ks, map (fun k => k mod c) ks)
  | _ => Raise ProcessingFailure
  end.

(** [a[ys, xs]] on a 2-D array, with index arrays of equal length; an index
    outside the shape is an IndexError. *)
Definition index2 {A} (a : ndarray A) (ys xs : list nat)
  : result (ndarray A) :=
  match shape a with
  | [r; c] =>
      (vs <- rmap (fun yx : nat * nat =>
                  let (y, x) := yx in
                  if (y <? r) && (x <? c) then
                    match cell c (flat a) y x with
                    | Some v => Ok v
                    | None => Raise ProcessingFailure
                    end
                  else Raise ProcessingFailure)
               (combine ys xs) ;;
       Ok (mk_ndarray [length vs] vs))%result
  | _ => Raise ProcessingFailure
  end.

(** [a[idxs]]: gather along the first axis; every index selects the block
    of [prod rest] elements of that position. *)
Definition index1 {A} (a : ndarray A) (idxs : list nat)
  : result (ndarray A) :=
  match shape a with
  | n :: rest =>
      let w := prod_shape rest in
      (blocks <- rmap (fun i =>
                  if i <? n then Ok (firstn w (skipn (i * w) (flat a)))
                  else Raise ProcessingFailure)
               idxs ;;
       Ok (mk_ndarray (length idxs :: rest) (concat blocks)))%result
  | [] => Raise ProcessingFailure
  end.

(** [a.astype(t)] with the element conversion [f]. *)
Definition astype {A B} (f : A -> B) (a : ndarray A) : ndarray B :=
  mk_ndarray (shape a) (map f (flat a)).

(** [np.max(a)]: ValueError on an array without elements; NaN as soon as
    one cell is NaN. *)
Definition np_max (a : ndarray np_float) : result np_float :=
  match flat a with
  | [] => Raise ProcessingFailure
  | x :: xs => Ok (fold_left maximum xs x)
  end.

(* ================================================================= *)
(** ** Strings and paths *)

Definition ascii_lower (c : ascii) : ascii :=
  let n := nat_of_ascii c in
  if (65 <=? n) && (n <=? 90) then ascii_of_nat (n + 32) else c.

(** [s.lower()] on ASCII names. *)
Fixpoint lower (s : string) : string :=
  match s with
  | EmptyString => EmptyString
  | String c s' => String (ascii_lower c) (lower s')
  end.

(** [sub in s]: [sub] occurs in [s]. *)
Fixpoint str_in (sub s : string) : bool :=
  prefix sub s
  || match s with
     | EmptyString => false
     | String _ s' => str_in sub s'
     end.

(** [s.endswith(suf)] *)
Definition endswith (s suf : string) : bool :=
  let n := String.length s in
  let m := String.length suf in
  (m <=? n) && String.eqb (substring (n - m) m s) suf.

(** [os.path.join(a, b)] of [posixpath]. *)
Definition os_path_join (a b : string) : string :=
  if prefix "/" b then b
  else if String.eqb a "" || endswith a "/" then a ++ b
  else a ++ "/" ++ b.

(** [next((x for x in l if p(x)), default)] *)
Definition next {A} (p : A -> bool) (l : list A) (default : A) : A :=
  match find p l with
  | Some x => x
  | None => default
  end.

(* ================================================================= *)
(** ** Datasets, bounding boxes and the environment *)

(** A variable of a dataset: its dimension names and its array. *)
Record DataArray : Type := mk_DataArray {
  dims : list string;
  values : ndarray np_float
}.

Record Dataset : Type := mk_Dataset {
  variables : list (string * DataArray);   (* data and coordinate variables *)
  coords : list string                     (* [ds.coords], in order *)
}.

(** [name in ds] *)
Definition contains (ds : Dataset) (name : string) : bool :=
  existsb (fun p => String.eqb name (fst p)) (variables ds).

(** [ds[name].values]; a missing name is a KeyError. *)
Definition getitem (ds : Dataset) (name : string)
  : result (ndarray np_float) :=
  match find (fun p => String.eqb name (fst p)) (variables ds) with
  | Some p => Ok (values (snd p))
  | None => Raise ProcessingFailure
  end.

(** [slice(start, stop)] *)
Record slice : Type := mk_slice { start : Qc; stop : Qc }.

(** The request's [bounds] dictionary. *)
Record Bounds : Type := mk_Bounds {
  top : Qc; bottom : Qc; left : Qc; right : Qc
}.

(** What the code takes from outside: the configuration, the file system,
    xarray and the floating-point conversions.  [listdir path],
    [open_dataset path group] and [sel ds indexers] are [None] when the
    call raises. *)
Record Env : Type := mk_Env {
  DATA_DIR : string;
  path_exists : string -> bool;               (* os.path.exists *)
  listdir : string -> option (list string);   (* os.listdir *)
  open_dataset : string -> option string -> option Dataset;
  sel : Dataset -> list (string * slice) -> option Dataset;
  to_float32 : Qc -> float32;                 (* rounding to binary32 *)
  round_num : nat -> Qc -> Qc;                (* round to n decimals *)
  round_f32 : nat -> float32 -> float32
}.

(* ================================================================= *)
(** ** Handles and the trace of dataset operations *)

(** Every call of [xr.open_dataset] is recorded with its outcome (the
    identifier of the handle it returned, if any), and so is every
    [close]. *)
Inductive event : Type :=
| EvOpen (path : string) (group : option string) (h : option nat)
| EvClose (h : nat).

Definition trace := list event.

(** An open dataset: the handle and what it reads. *)
Record Handle : Type := mk_Handle { hid : nat; contents : Dataset }.

Definition is_open (ev : event) : bool :=
  match ev with
  | EvOpen _ _ (Some _) => true
  | _ => false
  end.

Definition opens_of (h : nat) (ev : event) : bool :=
  match ev with
  | EvOpen _ _ (Some h') => h' =? h
  | _ => false
  end.

Definition closes_of (h : nat) (ev : event) : bool :=
  match ev with
  | EvClose h' => h' =? h
  | _ => false
  end.

(** How many times handle [h] was released in [tr]. *)
Definition released (h : nat) (tr : trace) : nat :=
  length (filter (closes_of h) tr).

(** The identifier of the next handle. *)
Definition fresh (tr : trace) : nat := length (filter is_open tr).

(** Computations over the trace.  The trace is kept when an exception is
    raised: what was opened stays opened. *)
Definition M (A : Type) : Type := trace -> result A * trace.

Definition ret {A} (a : A) : M A := fun tr => (Ok a, tr).

Definition raise {A} (e : error) : M A := fun tr => (Raise e, tr).

Definition lift {A} (r : result A) : M A := fun tr => (r, tr).

Definition bind {A B} (m : M A) (k : A -> M B) : M B :=
  fun tr =>
    match m tr with
    | (Ok a, tr') => k a tr'
    | (Raise e, tr') => (Raise e, tr')
    end.

(** [try: m  except: handler] *)
Definition try_except {A} (m : M A) (handler : error -> M A) : M A :=
  fun tr =>
    match m tr with
    | (Ok a, tr') => (Ok a, tr')
    | (Raise e, tr') => handler e tr'
    end.

Declare Scope M_scope.
Delimit Scope M_scope with M.
Notation "x <- m ;; k" := (bind m (fun x => k))
  (at level 61, m at next level, right associativity) : M_scope.
Notation "' p <- m ;; k" := (bind m (fun x => match x with p => k end))
  (at level 61, p pattern, m at next level, right associativity) : M_scope.
Notation "m ;;; k" := (bind m (fun _ => k))
  (at level 61, right associativity) : M_scope.

(** [xr.open_dataset(path, group=..., engine='h5netcdf',
    decode_times=False)] *)
Definition xr_open_dataset (env : Env) (path : string) (group : option string)
  : M Handle :=
  fun tr =>
    match open_dataset env path group with
    | Some d =>
        let h := fresh tr in
        (Ok (mk_Handle h d), tr ++ [EvOpen path group (Some h)])
    | None => (Raise OpenFailure, tr ++ [EvOpen path group None])
    end.

(** [ds.close()] *)
Definition close (ds : Handle) : M unit :=
  fun tr => (Ok tt, tr ++ [EvClose (hid ds)]).

(* ================================================================= *)
(** ** Pipeline stages (gpm_service.py) *)

(** Stage 1, lines 17-20 (and 72-75, 121-124): the grouped layout first,
    the flat layout on any failure. *)
Definition open_with_fallback (env : Env) (file_path : string) : M Handle :=
  try_except (xr_open_dataset env file_path (Some "Grid"))
             (fun _ => xr_open_dataset env file_path None).

(** Stage 2, line 23. *)
Definition candidates : list string :=
  ["precipitationCal"; "precipitation"; "precip"].

(** Line 24: [next((v for v in candidates if v in ds), None)] *)
Definition resolve_var (ds : Dataset) : option string :=
  find (contains ds) candidates.

(** Lines 25-26. *)
Definition resolve_lat (ds : Dataset) : string :=
  next (fun k => str_in "lat" (lower k)) (coords ds) "lat".

Definition resolve_lon (ds : Dataset) : string :=
  next (fun k => str_in "lon" (lower k)) (coords ds) "lon".

(** Lines 31-32. *)
Definition lat_slice (bounds : Bounds) : slice :=
  mk_slice (py_min (bottom bounds) (top bounds))
           (py_max (bottom bounds) (top bounds)).

Definition lon_slice (bounds : Bounds) : slice :=
  mk_slice (py_min (left bounds) (right bounds))
           (py_max (left bounds) (right bounds)).

(** The dictionary [{lat_name: lat_slice, lon_name: lon_slice}]: when both
    names are the same key, the later value replaces the earlier one. *)
Definition indexers (lat_name lon_name : string) (bounds : Bounds)
  : list (string * slice) :=
  if String.eqb lat_name lon_name then [(lat_name, lon_slice bounds)]
  else [(lat_name, lat_slice bounds); (lon_name, lon_slice bounds)].

(** Stage 3, lines 34-38 (and 89-93): the selection, replaced by the full
    dataset when it raises or when the selected variable has no element. *)
Definition crop (env : Env) (ds : Dataset) (var_name lat_name lon_name : string)
                (bounds : Bounds) : Dataset :=
  match sel env ds (indexers lat_name lon_name bounds) with
  | Some ds_cropped =>
      match getitem ds_cropped var_name with
      | Ok v => if size v =? 0 then ds else ds_cropped
      | Raise _ => ds
      end
  | None => ds
  end.

(** Stage 3 as [get_sparse_cloud_data] has it, lines 138-141: only a
    raised selection is replaced. *)
Definition crop_sparse_json (env : Env) (ds : Dataset)
                            (lat_name lon_name : string) (bounds : Bounds)
  : Dataset :=
  match sel env ds (indexers lat_name lon_name bounds) with
  | Some ds_cropped => ds_cropped
  | None => ds
  end.

Definition shape_eqb (s1 s2 : list nat) : bool :=
  if list_eq_dec Nat.eq_dec s1 s2 then true else false.

(** Lines 45-46: [if data.shape == (len(lons), len(lats)): data = data.T] *)
Definition orient (data : ndarray np_float) (nlons nlats : nat)
  : ndarray np_float :=
  if shape_eqb (shape data) [nlons; nlats] then T data else data.

(** Stage 4, lines 41-46 (and 96-102, 144-150). *)
Definition extract_arrays (ds_cropped : Dataset)
                          (var_name lat_name lon_name : string)
  : result (ndarray np_float * ndarray np_float * ndarray np_float) :=
  (v <- getitem ds_cropped var_name ;;
   let data := squeeze v in
   lats <- getitem ds_cropped lat_name ;;
   lons <- getitem ds_cropped lon_name ;;
   nlons <- np_len lons ;;
   nlats <- np_len lats ;;
   Ok (lats, lons, orient data nlons nlats))%result.

(** What [_extract_cloud_arrays] returns:
    [(valid_lats, valid_lons, valid_rain, max_val)]. *)
Record CloudArrays : Type := mk_CloudArrays {
  valid_lats : ndarray float32;
  valid_lons : ndarray float32;
  valid_rain : ndarray float32;
  max_val : np_float                     (* a Python float *)
}.

(** Stage 5, lines 50-57. *)
Definition sparse_filter (env : Env) (lats lons data : ndarray np_float)
                         (threshold : Qc) : result CloudArrays :=
  ('(y_idxs, x_idxs) <-
      np_where2 (np_gt (to_float32 env) data threshold) ;;
   rain <- index2 data y_idxs x_idxs ;;
   let valid_rain := astype (cast32 (to_float32 env)) rain in
   vlats <- index1 lats y_idxs ;;
   let valid_lats := astype (cast32 (to_float32 env)) vlats in
   vlons <- index1 lons x_idxs ;;
   let valid_lons := astype (cast32 (to_float32 env)) vlons in
   n <- np_len valid_rain ;;
   max_val <- (if 0 <? n then
                 m <- np_max data ;; Ok (py_float m)
               else Ok (Num Double (num 0))) ;;
   Ok (mk_CloudArrays valid_lats valid_lons valid_rain max_val))%result.

(** Lines 7-61. *)
Definition _extract_cloud_arrays (env : Env) (filename : string)
                                 (bounds : Bounds) (threshold : Qc)
  : M CloudArrays :=
  (let file_path := os_path_join (DATA_DIR env) filename in
   if negb (path_exists env file_path) then raise NotFound
   else
     ds <- open_with_fallback env file_path ;;
     let var_name := resolve_var (contents ds) in
     let lat_name := resolve_lat (contents ds) in
     let lon_name := resolve_lon (contents ds) in
     match var_name with
     | None => raise VariableNotFound
     | Some var_name =>
         let ds_cropped :=
           crop env (contents ds) var_name lat_name lon_name bounds in
         '(lats, lons, data) <-
           lift (extract_arrays ds_cropped var_name lat_name lon_name) ;;
         arrays <- lift (sparse_filter env lats lons data threshold) ;;
         close ds ;;;
         ret arrays
     end)%M.

(** Lines 63-105: the dense grid [(lats, lons, data)]. *)
Definition process_local_file (env : Env) (filename : string)
                              (bounds : Bounds)
  : M (ndarray np_float * ndarray np_float * ndarray np_float) :=
  (let file_path := os_path_join (DATA_DIR env) filename in
   if negb (path_exists env file_path) then raise NotFound
   else
     ds <- open_with_fallback env file_path ;;
     match resolve_var (contents ds) with
     | None => raise VariableNotFound
     | Some var_name =>
         let lat_name := resolve_lat (contents ds) in
         let lon_name := resolve_lon (contents ds) in
         let ds_cropped :=
           crop env (contents ds) var_name lat_name lon_name bounds in
         grid <- lift (extract_arrays ds_cropped var_name lat_name lon_name) ;;
         close ds ;;;
         ret grid
     end)%M.

(** [os.listdir(path)]: an OSError (not a directory, no permission) is
    not caught by the caller. *)
Definition os_listdir (env : Env) (path : string) : result (list string) :=
  match listdir env path with
  | Some names => Ok names
  | None => Raise ProcessingFailure
  end.

(** Lines 107-109. *)
Definition list_available_files (env : Env) : result (list string) :=
  if negb (path_exists env (DATA_DIR env)) then Ok []
  else
    (names <- os_listdir env (DATA_DIR env) ;;
     Ok (filter (fun f => endswith f ".HDF5" || endswith f ".nc"
                          || endswith f ".nc4")
                names))%result.

(** The [response_data] dictionary of [get_sparse_cloud_data]. *)
Record SparseJson : Type := mk_SparseJson {
  sj_lats : ndarray np_float;
  sj_lons : ndarray np_float;
  sj_vals : ndarray np_float;
  sj_max : np_float;                     (* a Python float *)
  sj_count : nat
}.

(** Lines 155-176: the filter of [get_sparse_cloud_data], without the cast
    and with the maximum taken unconditionally. *)
Definition sparse_json (env : Env) (lats lons data : ndarray np_float)
                       (threshold : Qc) : result SparseJson :=
  ('(y_idxs, x_idxs) <-
      np_where2 (np_gt (to_float32 env) data threshold) ;;
   valid_rain <- index2 data y_idxs x_idxs ;;
   valid_lats <- index1 lats y_idxs ;;
   valid_lons <- index1 lons x_idxs ;;
   m <- np_max data ;;
   n <- np_len valid_rain ;;
   Ok (mk_SparseJson (astype (cell_map (round_num env 3)) valid_lats)
                     (astype (cell_map (round_num env 3)) valid_lons)
                     (astype (cell_map (round_num env 2)) valid_rain)
                     (py_float m) n))%result.

(** Lines 111-179. *)
Definition get_sparse_cloud_data (env : Env) (filename : string)
                                 (bounds : Bounds) (threshold : Qc)
  : M SparseJson :=
  (let file_path := os_path_join (DATA_DIR env) filename in
   if negb (path_exists env file_path) then raise NotFound
   else
     ds <- open_with_fallback env file_path ;;
     match resolve_var (contents ds) with
     | None => raise VariableNotFound
     | Some var_name =>
         let lat_name := resolve_lat (contents ds) in
         let lon_name := resolve_lon (contents ds) in
         let ds_cropped :=
           crop_sparse_json env (contents ds) lat_name lon_name bounds in
         '(lats, lons, data) <-
           lift (extract_arrays ds_cropped var_name lat_name lon_name) ;;
         response_data <- lift (sparse_json env lats lons data threshold) ;;
         close ds ;;;
         ret response_data
     end)%M.

(* ================================================================= *)
(** ** The [/data] route (routers/gpm.py) *)

Definition byte_of_N (n : N) : byte :=
  match Byte.of_N n with
  | Some b => b
  | None => x00
  end.

(** The four bytes of an unsigned 32-bit integer, least significant
    first. *)
Definition le_uint32 (n : N) : list byte :=
  [ byte_of_N (n mod 256);
    byte_of_N ((n / 256) mod 256);
    byte_of_N ((n / 65536) mod 256);
    byte_of_N ((n / 16777216) mod 256) ]%N.

Definition float32_bytes (f : float32) : list byte :=
  [byte0 f; byte1 f; byte2 f; byte3 f].

(** The format ['f'] of [struct.pack] on a Python float: NaN is packed as
    it is; a number is rounded to binary32, and one that rounds to an
    infinity is an OverflowError. *)
Definition pack_f (env : Env) (x : np_float) : result float32 :=
  match x with
  | NaN => Ok nan32
  | Num _ q =>
      if is_inf32 (to_float32 env q) then Raise ProcessingFailure
      else Ok (to_float32 env q)
  end.

(** [struct.pack('<If', count, max_val)]: a count that does not fit 32
    bits is a struct.error. *)
Definition struct_pack_If (env : Env) (count : nat) (max_val : np_float)
  : result (list byte) :=
  if (N.of_nat count <? 2 ^ 32)%N then
    (m <- pack_f env max_val ;;
     Ok (le_uint32 (N.of_nat count) ++ float32_bytes m))%result
  else Raise ProcessingFailure.

(** [a.tobytes()]: the elements in C order, four bytes each. *)
Definition tobytes (a : ndarray float32) : list byte :=
  flat_map float32_bytes (flat a).

Inductive Response : Type :=
| BinaryResponse (content : list byte)   (* application/octet-stream *)
| JsonResponse (count : nat) (max_val : np_float) (bounds : Bounds)
               (lats lons vals : ndarray float32)
| ErrorResponse (e : error).             (* status 500, text/plain *)

(** Lines 39-88 of the router. *)
Definition get_gpm_data (env : Env) (filename : string)
                        (toplat bottomlat leftlon rightlon threshold : Qc)
                        (format : string) : M Response :=
  let bounds := mk_Bounds toplat bottomlat leftlon rightlon in
  try_except
    (arrays <- _extract_cloud_arrays env filename bounds threshold ;;
     let lats := valid_lats arrays in
     let lons := valid_lons arrays in
     let vals := valid_rain arrays in
     let max_val := max_val arrays in
     count <- lift (np_len vals) ;;
     if String.eqb format "bin" then
       header <- lift (struct_pack_If env count max_val) ;;
       let body := tobytes lats ++ tobytes lons ++ tobytes vals in
       ret (BinaryResponse (header ++ body))
     else
       ret (JsonResponse count (cell_map (round_num env 2) max_val) bounds
                         (astype (round_f32 env 3) lats)
                         (astype (round_f32 env 3) lons)
                         (astype (round_f32 env 2) vals)))%M
    (fun e => ret (ErrorResponse e)).

(* ================================================================= *)
(** ** The [/plot] route (routers/gpm.py) *)

(** The helpers of [app.utils] that the [/plot] route calls.  The modules
    [formatting] and [plotting] are not among the sources: the two
    functions are parameters, and either may raise. *)
Record Utils : Type := mk_Utils {
  parse_gpm_filename : string -> result string;
  generate_heatmap :
    ndarray np_float -> ndarray np_float -> ndarray np_float -> Bounds ->
    string -> string ->
    result (list byte)
}.

Inductive PlotResponse : Type :=
| ImageResponse (content : list byte)    (* image/png *)
| PlotError (e : error).                 (* status 500, text/plain *)

(** Lines 12-37 of the router. *)
Definition plot_gpm_file (env : Env) (utils : Utils) (filename : string)
                         (toplat bottomlat leftlon rightlon : Qc)
  : M PlotResponse :=
  let bounds := mk_Bounds toplat bottomlat leftlon rightlon in
  try_except
    ('(lats, lons, data) <- process_local_file env filename bounds ;;
     date_clean <- lift (parse_gpm_filename utils filename) ;;
     img_bytes <- lift (generate_heatmap utils lats lons data bounds
                                         "GPM IMERG" date_clean) ;;
     ret (ImageResponse img_bytes))%M
    (fun e => ret (PlotError e)).

(* ================================================================= *)
(** ** A client of the binary format *)

Definition N_of_le (bs : list byte) : N :=
  fold_right (fun b acc => Byte.to_N b + 256 * acc)%N 0%N bs.

(** Read [n] 32-bit floats from the front of [bs]; the rest is returned
    with them. *)
Fixpoint read_floats (n : nat) (bs : list byte)
  : option (list float32 * list byte) :=
  match n with
  | 0 => Some ([], bs)
  | S n' =>
      match bs with
      | a :: b :: c :: d :: bs' =>
          match read_floats n' bs' with
          | Some (fs, rest) => Some (mk_float32 a b c d :: fs, rest)
          | None => None
          end
      | _ => None
      end
  end.

Record Decoded : Type := mk_Decoded {
  d_count : nat;
  d_max : float32;
  d_lats : list float32;
  d_lons : list float32;
  d_vals : list float32;
  d_rest : list byte           (* bytes left unread *)
}.

(** Decode the header, then [count] latitudes, [count] longitudes and
    [count] values. *)
Definition decode_bin (bs : list byte) : option Decoded :=
  match bs with
  | c0 :: c1 :: c2 :: c3 :: m0 :: m1 :: m2 :: m3 :: body =>
      let count := N.to_nat (N_of_le [c0; c1; c2; c3]) in
      match read_floats count body with
      | Some (lats, body1) =>
          match read_floats count body1 with
          | Some (lons, body2) =>
              match read_floats count body2 with
              | Some (vals, rest) =>
                  Some (mk_Decoded count (mk_float32 m0 m1 m2 m3)
                                   lats lons vals rest)
              | None => None
              end
          | None => None
          end
      | None => None
      end
  | _ => None
  end.

(* ================================================================= *)
(** ** A reference environment *)

(** Concrete stand-ins for what [Env] abstracts, used to run the pipeline
    on examples: IEEE binary32 rounding, decimal rounding, and label
    selection on dimension coordinates that increase. *)

Module Binary32.

(** [floor (log2 (n / d))] for positive [n], [d]. *)
Definition ilog2 (n d : Z) : Z :=
  let e0 := (Z.log2 n - Z.log2 d)%Z in
  let ge := if (0 <=? e0)%Z then (d * 2 ^ e0 <=? n)%Z
            else (d <=? n * 2 ^ (- e0))%Z in
  if ge then e0 else (e0 - 1)%Z.

(** Round [n / d] to the nearest integer, ties to even. *)
Definition round_half_even (n d : Z) : Z :=
  let q := (n / d)%Z in
  let r := (n mod d)%Z in
  if (d <? 2 * r)%Z then (q + 1)%Z
  else if (2 * r =? d)%Z && Z.odd q then (q + 1)%Z
  else q.

(** The bit pattern of the binary32 nearest to [q] (round to nearest,
    ties to even; subnormals; infinity beyond the range). *)
Definition bits_of_Q (q : Q) : Z :=
  let n := Z.abs (Qnum q) in
  let d := Zpos (Qden q) in
  if (n =? 0)%Z then 0%Z
  else
    let e := Z.max (ilog2 n d) (-126) in
    let sh := (e - 23)%Z in
    let m := if (0 <=? sh)%Z then round_half_even n (d * 2 ^ sh)
             else round_half_even (n * 2 ^ (- sh)) d in
    let mag := Z.min ((e + 126) * 2 ^ 23 + m) 2139095040 in
    if (Qnum q <? 0)%Z then (2 ^ 31 + mag)%Z else mag.

Definition of_bits (z : Z) : float32 :=
  let n := Z.to_N z in
  match le_uint32 n with
  | [a; b; c; d] => mk_float32 a b c d
  | _ => mk_float32 x00 x00 x00 x00
  end.

Definition to_bits (f : float32) : Z :=
  Z.of_N (N_of_le (float32_bytes f)).

Definition of_Qc (q : Qc) : float32 := of_bits (bits_of_Q q).

(** The value of a finite binary32. *)
Definition to_Q (f : float32) : Q :=
  let z := to_bits f in
  let s := (z / 2 ^ 31)%Z in
  let e := ((z / 2 ^ 23) mod 256)%Z in
  let m := (z mod 2 ^ 23)%Z in
  let mag := if (e =? 0)%Z then Qmake m (2 ^ 149)
             else if (e <? 150)%Z
                  then Qmake (2 ^ 23 + m) (Z.to_pos (2 ^ (150 - e)))
                  else inject_Z ((2 ^ 23 + m) * 2 ^ (e - 150)) in
  if (s =? 1)%Z then Qopp mag else mag.

(** Round to [k] decimals, ties to even. *)
Definition round_decimals (k : nat) (q : Q) : Q :=
  let p := (10 ^ Z.of_nat k)%Z in
  Qmake (round_half_even (Qnum q * p) (Zpos (Qden q))) (Z.to_pos p).

Definition round_Qc (k : nat) (q : Qc) : Qc := Q2Qc (round_decimals k q).

Definition round_float32 (k : nat) (f : float32) : float32 :=
  let e := ((to_bits f / 2 ^ 23) mod 256)%Z in
  if (e =? 255)%Z then f
  else of_bits (bits_of_Q (round_decimals k (to_Q f))).

End Binary32.

Module Reference.

(** [start <= v <= stop]: label slices include both ends. *)
Definition in_slice (s : slice) (v : Qc) : bool :=
  negb (gtb (start s) v) && negb (gtb v (stop s)).

(** The positions of the labels that a slice keeps. *)
Definition kept (s : slice) (labels : list np_float) : list nat :=
  filter (fun i => match nth_error labels i with
                   | Some (Num _ v) => in_slice s v
                   | _ => false
                   end)
         (seq 0 (length labels)).

(** Keep the positions [ks] of axis [k]. *)
Definition take_axis {A} (k : nat) (ks : list nat) (a : ndarray A)
  : ndarray A :=
  let outer := prod_shape (firstn k (shape a)) in
  let n := nth k (shape a) 0 in
  let inner := prod_shape (skipn (S k) (shape a)) in
  mk_ndarray
    (firstn k (shape a) ++ length ks :: skipn (S k) (shape a))
    (flat_map (fun o =>
       flat_map (fun i => firstn inner (skipn ((o * n + i) * inner) (flat a)))
                ks)
       (seq 0 outer)).

Fixpoint index_of (name : string) (l : list string) : option nat :=
  match l with
  | [] => None
  | x :: l' =>
      if String.eqb name x then Some 0
      else match index_of name l' with
           | Some k => Some (S k)
           | None => None
           end
  end.

Definition sel_var (name : string) (ks : list nat) (v : DataArray)
  : DataArray :=
  match index_of name (dims v) with
  | Some k => mk_DataArray (dims v) (take_axis k ks (values v))
  | None => v
  end.

(** One indexer: the name must be a dimension coordinate (KeyError
    otherwise); every variable on that dimension is restricted. *)
Definition sel_one (ds : Dataset) (ix : string * slice) : option Dataset :=
  let (name, s) := ix in
  match find (fun p => String.eqb name (fst p)) (variables ds) with
  | Some (_, c) =>
      if list_eq_dec string_dec (dims c) [name] then
        let ks := kept s (flat (values c)) in
        Some (mk_Dataset
                (map (fun p => (fst p, sel_var name ks (snd p)))
                     (variables ds))
                (coords ds))
      else None
  | None => None
  end.

(** [ds.sel(indexers)] on increasing dimension coordinates. *)
Fixpoint sel_sorted (ds : Dataset) (ixs : list (string * slice))
  : option Dataset :=
  match ixs with
  | [] => Some ds
  | ix :: rest =>
      match sel_one ds ix with
      | Some ds' => sel_sorted ds' rest
      | None => None
      end
  end.

Fixpoint lookup {A} (k : string) (l : list (string * A)) : option A :=
  match l with
  | [] => None
  | (k', a) :: l' => if String.eqb k k' then Some a else lookup k l'
  end.

(** A data directory ["data"] holding [names]; [grouped] and [ungrouped]
    give the files that open with and without the ["Grid"] group. *)
Definition env_of (names : list string)
                  (grouped ungrouped : list (string * Dataset)) : Env :=
  mk_Env "data"
         (fun p => String.eqb p "data"
                   || existsb (fun n => String.eqb p ("data/" ++ n)) names)
         (fun p => if String.eqb p "data" then Some names else None)
         (fun p g => match g with
                     | Some _ => lookup p grouped
                     | None => lookup p ungrouped
                     end)
         sel_sorted
         Binary32.of_Qc
         Binary32.round_Qc
         Binary32.round_float32.

(** A one-dimensional coordinate variable. *)
Definition coord (name : string) (labels : list Qc) : string * DataArray :=
  (name, mk_DataArray [name] (mk_ndarray [length labels] (singles labels))).

(** A 2 x 2 field on latitudes 0, 1 and longitudes 0, 1:
    [[0.0, 0.5], [0.0625, 5.0]]. *)
Definition small_grid : Dataset :=
  mk_Dataset
    [ ("precipitation",
       mk_DataArray ["lat"; "lon"]
         (mk_ndarray [2; 2]
            (singles [num 0; frac 1 2; frac 1 16; num 5])));
      coord "lat" [num 0; num 1];
      coord "lon" [num 0; num 1] ]
    ["lat"; "lon"].

(** The layout of an IMERG file: a field on (time, lon, lat) with three
    longitudes and two latitudes, [[1, 5], [2, 6], [3, 7]]. *)
Definition imerg_grid : Dataset :=
  mk_Dataset
    [ ("precipitation",
       mk_DataArray ["time"; "lon"; "lat"]
         (mk_ndarray [1; 3; 2]
            (singles [num 1; num 5; num 2; num 6; num 3; num 7])));
      coord "time" [num 0];
      coord "lon" [num 10; num 20; num 30];
      coord "lat" [num 0; num 1] ]
    ["time"; "lon"; "lat"].

(** A dataset without any of the known field names. *)
Definition no_field : Dataset :=
  mk_Dataset
    [ ("rainfall",
       mk_DataArray ["lat"; "lon"] (mk_ndarray [1; 1] (singles [num 1])));
      coord "lat" [num 0];
      coord "lon" [num 0] ]
    ["lat"; "lon"].

(** The example file system: two files that open (one grouped, one flat),
    one without a known field, one that no layout opens, and a text
    file. *)
Definition env0 : Env :=
  env_of ["small.nc"; "imerg.HDF5"; "nofield.nc"; "broken.nc"; "notes.txt"]
         [("data/imerg.HDF5", imerg_grid)]
         [("data/small.nc", small_grid); ("data/nofield.nc", no_field)].

(** A field of double precision, [[0.0, 10^39], [0.0, 0.0]], on latitudes
    0, 1 and longitudes 0, 1. *)
Definition huge_grid : Dataset :=
  mk_Dataset
    [ ("precipitation",
       mk_DataArray ["lat"; "lon"]
         (mk_ndarray [2; 2]
            [Num Double (num 0); Num Double (num (10 ^ 39));
             Num Double (num 0); Num Double (num 0)]));
      coord "lat" [num 0; num 1];
      coord "lon" [num 0; num 1] ]
    ["lat"; "lon"].

Definition env_huge : Env :=
  env_of ["huge.nc"] [] [("data/huge.nc", huge_grid)].

(** A configuration whose data directory exists but cannot be listed: the
    path ["data"] is a regular file. *)
Definition env_file : Env :=
  mk_Env "data"
         (fun p => String.eqb p "data")
         (fun _ => None)
         (fun _ _ => None)
         sel_sorted
         Binary32.of_Qc
         Binary32.round_Qc
         Binary32.round_float32.

(** The whole globe, and a box outside the coordinates of every example. *)
Definition world : Bounds :=
  mk_Bounds (num 90) (num (-90)) (num (-180)) (num 180).

Definition far_away : Bounds := mk_Bounds (num 60) (num 50) (num 50) (num 60).

End Reference.

(* ================================================================= *)
(** * Vocabulary of the properties *)

Unset Implicit Arguments.

(** ** Bounding boxes *)

(** The box with its top and bottom edges exchanged. *)
Definition swap_top_bottom (B : Bounds) : Bounds :=
  mk_Bounds (bottom B) (top B) (left B) (right B).

(** The box with its left and right edges exchanged. *)
Definition swap_left_right (B : Bounds) : Bounds :=
  mk_Bounds (top B) (bottom B) (right B) (left B).

(** Two boxes that give the same range on each axis. *)
Definition same_ranges (B B' : Bounds) : Prop :=
  lat_slice B' = lat_slice B /\ lon_slice B' = lon_slice B.

(** ** Runs of the entry points *)

(** [r] raises nothing but [e0]. *)
Definition raises_only {A} (e0 : error) (r : result A) : Prop :=
  forall e, r = Raise e -> e = e0.

(** [os.path.join(DATA_DIR, filename)] *)
Definition path_of (env : Env) (filename : string) : string :=
  os_path_join (DATA_DIR env) filename.

(** Stages 3 to 5 of [_extract_cloud_arrays] on an opened dataset. *)
Definition cloud_arrays_of (env : Env) (d : Dataset) (v : string)
                           (B : Bounds) (t : Qc) : result CloudArrays :=
  ('(lats, lons, data) <-
      extract_arrays (crop env d v (resolve_lat d) (resolve_lon d) B)
                     v (resolve_lat d) (resolve_lon d) ;;
   sparse_filter env lats lons data t)%result.

(** Stages 3 and 4 of [process_local_file]. *)
Definition grid_of (env : Env) (d : Dataset) (v : string) (B : Bounds)
  : result (ndarray np_float * ndarray np_float * ndarray np_float) :=
  extract_arrays (crop env d v (resolve_lat d) (resolve_lon d) B)
                 v (resolve_lat d) (resolve_lon d).

(** Stages 3 to 5 of [get_sparse_cloud_data]. *)
Definition sparse_json_of (env : Env) (d : Dataset) (v : string)
                          (B : Bounds) (t : Qc) : result SparseJson :=
  ('(lats, lons, data) <-
      extract_arrays (crop_sparse_json env d (resolve_lat d) (resolve_lon d) B)
                     v (resolve_lat d) (resolve_lon d) ;;
   sparse_json env lats lons data t)%result.

(** After the handle is opened: resolve the field, compute, and close only
    when the computation returned. *)
Definition finish {A} (ds : Handle) (tr1 : trace)
                  (body : string -> result A) : result A * trace :=
  match resolve_var (contents ds) with
  | None => (Raise VariableNotFound, tr1)
  | Some v =>
      match body v with
      | Ok a => (Ok a, tr1 ++ [EvClose (hid ds)])
      | Raise e => (Raise e, tr1)
      end
  end.

(** The common shape of the three entry points: existence check, opening,
    then [finish]. *)
Definition run_with {A} (env : Env) (f : string) (tr : trace)
                    (body : Dataset -> string -> result A)
  : result A * trace :=
  if path_exists env (path_of env f) then
    match open_with_fallback env (path_of env f) tr with
    | (Ok ds, tr1) => finish ds tr1 (body (contents ds))
    | (Raise e, tr1) => (Raise e, tr1)
    end
  else (Raise NotFound, tr).

(** [v] is the first candidate, in priority order, that the dataset
    has. *)
Definition first_present (ds : Dataset) (v : string) : Prop :=
  exists before after,
    candidates = before ++ v :: after
    /\ contains ds v = true
    /\ forall u, In u before -> contains ds u = false.

(** A name with one of the recognised extensions. *)
Definition recognised (f : string) : Prop :=
  exists stem, f = (stem ++ ".HDF5")%string \/ f = (stem ++ ".nc")%string
               \/ f = (stem ++ ".nc4")%string.

(** ** Grids and point sets *)

(** Column [j] of an [r] x [c] array. *)
Definition column {A} (r c : nat) (l : list A) (j : nat) : list A :=
  flat_map (fun i => opt_list (cell c l i j)) (seq 0 r).

(** The invariant of a cropped grid: one-dimensional coordinates, and a
    value array with one row per latitude and one column per longitude. *)
Definition cropped_grid (lats lons data : ndarray np_float) (La Lo : nat)
  : Prop :=
  shape lats = [La] /\ length (flat lats) = La
  /\ shape lons = [Lo] /\ length (flat lons) = Lo
  /\ shape data = [La; Lo] /\ length (flat data) = La * Lo.

(** The cell holds a number strictly greater than [t], both taken
    exactly. *)
Definition exceeds (t : Qc) (c : np_float) : bool :=
  match c with
  | Num _ q => gtb q t
  | NaN => false
  end.

(** The cell passes the test of the code, [c > t]: it holds a number
    strictly greater than [t] as rounded to the precision of the cell. *)
Definition passes (env : Env) (t : Qc) (c : np_float) : bool :=
  cell_gt (to_float32 env) c t.

(** The flat positions, among the first [n], of the cells that satisfy
    [keep]. *)
Definition above (keep : np_float -> bool) (G : list np_float) (n : nat)
  : list nat :=
  filter (fun k => keep (nth k G NaN)) (seq 0 n).

(** The numbers that the cells hold. *)
Definition numbers (G : list np_float) : list Qc :=
  flat_map (fun c => match c with Num _ q => [q] | NaN => [] end) G.

(** No cell is NaN. *)
Definition finite (G : list np_float) : Prop :=
  Forall (fun c => c <> NaN) G.

(** The comparison with [t] is exact on the cell [c]: the threshold is a
    binary32 number, or the cell is not of single precision. *)
Definition exact_for (env : Env) (t : Qc) (c : np_float) : Prop :=
  float32_value (to_float32 env t) = t
  \/ match c with
     | Num Single _ => False
     | _ => True
     end.

(** What [np.max] computes on the cells [G] (0.0 for none). *)
Definition grid_max (G : list np_float) : np_float :=
  match G with
  | [] => Num Double (num 0)
  | x :: xs => fold_left maximum xs x
  end.

(** The cell holds a number in precision [p]. *)
Definition has_precision (p : precision) (c : np_float) : Prop :=
  match c with
  | Num p' _ => p' = p
  | NaN => False
  end.

(** Two thresholds in increasing order, as they are and as rounded to
    binary32. *)
Definition ordered_thresholds (env : Env) (t t' : Qc) : Prop :=
  (t <= t')%Qc
  /\ (float32_value (to_float32 env t)
      <= float32_value (to_float32 env t'))%Qc.

(** The number of cells that satisfy [keep]. *)
Definition count_above (keep : np_float -> bool) (G : list np_float) : nat :=
  length (filter keep G).

(** Written from the specification: the cells of a grid with [La] rows
    and [Lo] columns that satisfy [keep], in row-major order (for each row,
    for each column), each with the latitude of its row and the longitude
    of its column. *)
Definition row_major_scan (keep : np_float -> bool)
                          (lats lons G : list np_float) (La Lo : nat)
  : list (np_float * np_float * np_float) :=
  flat_map
    (fun i =>
       flat_map
         (fun j =>
            match nth_error lats i, nth_error lons j, cell Lo G i j with
            | Some la, Some lo, Some v =>
                if keep v then [(la, lo, v)] else []
            | _, _, _ => []
            end)
         (seq 0 Lo))
    (seq 0 La).

(** The points that [_extract_cloud_arrays] returns, read in parallel. *)
Definition triples (r : CloudArrays) : list (float32 * float32 * float32) :=
  combine (combine (flat (valid_lats r)) (flat (valid_lons r)))
          (flat (valid_rain r)).

(** The 32-bit casts of a (lat, lon, value) triple. *)
Definition cast3 (env : Env) (p : np_float * np_float * np_float)
  : float32 * float32 * float32 :=
  let '(la, lo, v) := p in
  (cast32 (to_float32 env) la, cast32 (to_float32 env) lo,
   cast32 (to_float32 env) v).

(** [m] is the maximum of the numbers [G]. *)
Definition is_max (m : Qc) (G : list Qc) : Prop :=
  In m G /\ Forall (fun v => (v <= m)%Qc) G.

(** [x] is what [np.max] gives on the cells [G], as a Python float: NaN
    when a cell is NaN, the greatest number otherwise. *)
Definition is_np_max (x : np_float) (G : list np_float) : Prop :=
  (In NaN G /\ x = NaN)
  \/ (finite G /\ exists m, x = Num Double m /\ is_max m (numbers G)).

(** The maximum fits the 32-bit float of the header: it does not round to
    an infinity. *)
Definition fits_float32 (env : Env) (x : np_float) : Prop :=
  match x with
  | Num _ q => is_inf32 (to_float32 env q) = false
  | NaN => True
  end.

(** What a computation returned, if it did. *)
Definition value {A} (r : result A) : option A :=
  match r with
  | Ok a => Some a
  | Raise _ => None
  end.

(** A sparse point set of [count] points, as the route reads it. *)
Definition point_set (a : CloudArrays) (count : nat) : Prop :=
  shape (valid_rain a) = [count]
  /\ length (flat (valid_lats a)) = count
  /\ length (flat (valid_lons a)) = count
  /\ length (flat (valid_rain a)) = count.

(** The payload of a point set. *)
Definition payload (env : Env) (a : CloudArrays) (count : nat) : list byte :=
  le_uint32 (N.of_nat count)
  ++ float32_bytes (cast32 (to_float32 env) (max_val a))
  ++ tobytes (valid_lats a) ++ tobytes (valid_lons a)
  ++ tobytes (valid_rain a).

(** ** Requests *)

(** The dataset a request reads: the grouped layout when it opens, the
    flat layout otherwise. *)
Definition opened (env : Env) (p : string) : option Dataset :=
  match open_dataset env p (Some "Grid") with
  | Some d => Some d
  | None => open_dataset env p None
  end.

(** The events of stage 1 on path [p], after the trace [tr]. *)
Definition opening_of (env : Env) (p : string) (tr : trace) : list event :=
  match open_dataset env p (Some "Grid"), open_dataset env p None with
  | Some _, _ => [EvOpen p (Some "Grid") (Some (fresh tr))]
  | None, Some _ =>
      [EvOpen p (Some "Grid") None; EvOpen p None (Some (fresh tr))]
  | None, None => [EvOpen p (Some "Grid") None; EvOpen p None None]
  end.

(** The trace a request for [f] leaves when it ends with [r]. *)
Definition trace_after {A} (env : Env) (f : string) (tr : trace)
                       (r : result A) : trace :=
  if path_exists env (path_of env f) then
    tr ++ opening_of env (path_of env f) tr
       ++ (if succeeded r then [EvClose (fresh tr)] else [])
  else tr.

(** A run that leaves the trace of its outcome, and closes the handle it
    opened once when it returns and no handle when it raises. *)
Definition well_traced {A} (env : Env) (f : string) (tr : trace)
                       (run : result A * trace) : Prop :=
  snd run = trace_after env f tr (fst run)
  /\ forall h,
       released h (snd run)
       = released h tr
         + (if succeeded (fst run) && (h =? fresh tr) then 1 else 0).

(** The outcome [r] of a request for [f] whose stages 3 to 5 are [body],
    sorted by the stage that decides it. *)
Definition classified {A} (env : Env) (f : string)
                      (body : Dataset -> string -> result A)
                      (r : result A) : Prop :=
  (r = Raise NotFound <-> path_exists env (path_of env f) = false)
  /\ (r = Raise VariableNotFound
      <-> path_exists env (path_of env f) = true
          /\ exists d, opened env (path_of env f) = Some d
                       /\ resolve_var d = None)
  /\ (r = Raise ProcessingFailure
      <-> path_exists env (path_of env f) = true
          /\ exists d v, opened env (path_of env f) = Some d
                         /\ resolve_var d = Some v
                         /\ body d v = Raise ProcessingFailure)
  /\ (forall a,
        r = Ok a
        <-> path_exists env (path_of env f) = true
            /\ exists d v, opened env (path_of env f) = Some d
                           /\ resolve_var d = Some v
                           /\ body d v = Ok a).

(** The environment [env] configured with the data directory [d]. *)
Definition with_data_dir (env : Env) (d : string) : Env :=
  mk_Env d (path_exists env) (listdir env) (open_dataset env) (sel env)
         (to_float32 env) (round_num env) (round_f32 env).

(** [sub] occurs in [s]. *)
Definition occurs (sub s : string) : Prop :=
  exists pre post, s = (pre ++ sub ++ post)%string.

(** [name] is the first of [names] whose lower-cased form contains [key],
    or [key] itself when no name does. *)
Definition first_containing (key : string) (names : list string)
                            (name : string) : Prop :=
  (exists before after,
      names = before ++ name :: after
      /\ occurs key (lower name)
      /\ forall n, In n before -> ~ occurs key (lower n))
  \/ (name = key /\ forall n, In n names -> ~ occurs key (lower n)).

(* ================================================================= *)
(** * Properties *)

(* ================================================================= *)
(** ** Order on numbers *)

Lemma gtb_lt (x y : Qc) : gtb x y = true <-> (y < x)%Qc.
Proof.
  unfold gtb. rewrite (Qcgt_alt x y).
  destruct (x ?= y)%Qc; split; intro H; congruence.
Qed.

Lemma gtb_le (x y : Qc) : gtb x y = false <-> (x <= y)%Qc.
Proof.
  unfold gtb. rewrite (Qcle_alt x y).
  destruct (x ?= y)%Qc; split; intro H; congruence.
Qed.

Lemma py_max_comm (a b : Qc) : py_max a b = py_max b a.
Proof.
  unfold py_max.
  destruct (gtb b a) eqn:Hba, (gtb a b) eqn:Hab; trivial.
  - apply gtb_lt in Hba, Hab.
    exfalso. apply (Qclt_not_le _ _ Hba). now apply Qclt_le_weak.
  - apply gtb_le in Hba, Hab. now apply Qcle_antisym.
Qed.

Lemma py_min_comm (a b : Qc) : py_min a b = py_min b a.
Proof.
  unfold py_min.
  destruct (gtb a b) eqn:Hab, (gtb b a) eqn:Hba; trivial.
  - apply gtb_lt in Hba, Hab.
    exfalso. apply (Qclt_not_le _ _ Hba). now apply Qclt_le_weak.
  - apply gtb_le in Hba, Hab. now apply Qcle_antisym.
Qed.

Lemma py_max_ge_l (a b : Qc) : (a <= py_max a b)%Qc.
Proof.
  unfold py_max. destruct (gtb b a) eqn:H.
  - apply Qclt_le_weak. now apply gtb_lt.
  - apply Qcle_refl.
Qed.

Lemma py_max_ge_r (a b : Qc) : (b <= py_max a b)%Qc.
Proof.
  unfold py_max. destruct (gtb b a) eqn:H.
  - apply Qcle_refl.
  - now apply gtb_le.
Qed.

Lemma py_max_cases (a b : Qc) : py_max a b = a \/ py_max a b = b.
Proof. unfold py_max. destruct (gtb b a); auto. Qed.

(* ================================================================= *)
(** ** Bounds cropper: symmetry under corner swaps *)

Lemma swap_top_bottom_ranges (B : Bounds) : same_ranges B (swap_top_bottom B).
Proof.
  unfold same_ranges, lat_slice, lon_slice; simpl. split; trivial.
  now rewrite py_min_comm, py_max_comm.
Qed.

Lemma swap_left_right_ranges (B : Bounds) : same_ranges B (swap_left_right B).
Proof.
  unfold same_ranges, lat_slice, lon_slice; simpl. split; trivial.
  now rewrite py_min_comm, py_max_comm.
Qed.

Lemma swap_both_ranges (B : Bounds) :
  same_ranges B (swap_top_bottom (swap_left_right B)).
Proof.
  unfold same_ranges, lat_slice, lon_slice; simpl.
  split; now rewrite py_min_comm, py_max_comm.
Qed.

Lemma indexers_same_ranges (la lo : string) (B B' : Bounds) :
  same_ranges B B' -> indexers la lo B' = indexers la lo B.
Proof. intros [Ha Ho]. unfold indexers. now rewrite Ha, Ho. Qed.

Lemma crop_same_ranges (env : Env) (ds : Dataset) (v la lo : string)
                       (B B' : Bounds) :
  same_ranges B B' -> crop env ds v la lo B' = crop env ds v la lo B.
Proof.
  intro H. unfold crop. now rewrite (indexers_same_ranges la lo B B' H).
Qed.

Lemma crop_sparse_json_same_ranges (env : Env) (ds : Dataset) (la lo : string)
                                   (B B' : Bounds) :
  same_ranges B B' ->
  crop_sparse_json env ds la lo B' = crop_sparse_json env ds la lo B.
Proof.
  intro H. unfold crop_sparse_json.
  now rewrite (indexers_same_ranges la lo B B' H).
Qed.

(** The three entry points only look at the box through the cropper. *)
Lemma pipeline_same_ranges (env : Env) (f : string) (B B' : Bounds) (t : Qc)
                           (tr : trace) :
  same_ranges B B' ->
  _extract_cloud_arrays env f B' t tr = _extract_cloud_arrays env f B t tr
  /\ process_local_file env f B' tr = process_local_file env f B tr
  /\ get_sparse_cloud_data env f B' t tr = get_sparse_cloud_data env f B t tr.
Proof.
  intro H.
  unfold _extract_cloud_arrays, process_local_file, get_sparse_cloud_data.
  destruct (negb (path_exists env (os_path_join (DATA_DIR env) f)));
    [ now repeat split | ].
  unfold bind.
  destruct (open_with_fallback env (os_path_join (DATA_DIR env) f) tr)
    as [[ds | e] tr1]; [ | now repeat split ].
  destruct (resolve_var (contents ds)) as [v | ]; [ | now repeat split ].
  rewrite (crop_same_ranges env (contents ds) v _ _ B B' H).
  rewrite (crop_sparse_json_same_ranges env (contents ds) _ _ B B' H).
  now repeat split.
Qed.

(* ================================================================= *)
(** ** Which stage raises what *)

Lemma raises_only_Ok {A} (e0 : error) (a : A) : raises_only e0 (Ok a).
Proof. intros e H. discriminate. Qed.

Lemma raises_only_Raise {A} (e0 : error) : raises_only e0 (@Raise A e0).
Proof. intros e H. congruence. Qed.

Lemma raises_only_rbind {A B} (e0 : error) (r : result A)
                        (k : A -> result B) :
  raises_only e0 r -> (forall a, raises_only e0 (k a)) ->
  raises_only e0 (rbind r k).
Proof.
  intros Hr Hk. destruct r as [a | e]; simpl.
  - apply Hk.
  - intros e' H. apply Hr. congruence.
Qed.

Lemma raises_only_rmap {A B} (e0 : error) (f : A -> result B) (l : list A) :
  (forall a, raises_only e0 (f a)) -> raises_only e0 (rmap f l).
Proof.
  intro Hf. induction l as [ | a l IH]; simpl.
  - apply raises_only_Ok.
  - destruct (f a) as [b | e] eqn:Ea.
    + destruct (rmap f l) as [bs | e].
      * apply raises_only_Ok.
      * intros e' H. apply IH. congruence.
    + intros e' H. apply (Hf a). congruence.
Qed.

Create HintDb raises.
#[local] Hint Resolve raises_only_Ok raises_only_Raise : raises.

Ltac raises_step :=
  match goal with
  | |- raises_only _ (rbind _ _) => apply raises_only_rbind; [ | intro ]
  | |- raises_only _ (rmap _ _) => apply raises_only_rmap; intro
  | |- raises_only _ (Ok _) => apply raises_only_Ok
  | |- raises_only _ (Raise _) => apply raises_only_Raise
  | |- raises_only _ (match ?x with _ => _ end) => destruct x
  | |- raises_only _ (let (_, _) := ?x in _) => destruct x
  end.

Lemma getitem_raises (ds : Dataset) (name : string) :
  raises_only ProcessingFailure (getitem ds name).
Proof. unfold getitem. repeat raises_step. Qed.

Lemma np_len_raises {A} (a : ndarray A) :
  raises_only ProcessingFailure (np_len a).
Proof. unfold np_len. repeat raises_step. Qed.

Lemma np_where2_raises (mask : ndarray bool) :
  raises_only ProcessingFailure (np_where2 mask).
Proof. unfold np_where2. repeat raises_step. Qed.

Lemma index2_raises {A} (a : ndarray A) (ys xs : list nat) :
  raises_only ProcessingFailure (index2 a ys xs).
Proof. unfold index2. repeat raises_step. Qed.

Lemma index1_raises {A} (a : ndarray A) (idxs : list nat) :
  raises_only ProcessingFailure (index1 a idxs).
Proof. unfold index1. repeat raises_step. Qed.

Lemma np_max_raises (a : ndarray np_float) :
  raises_only ProcessingFailure (np_max a).
Proof. unfold np_max. repeat raises_step. Qed.

#[local] Hint Resolve getitem_raises np_len_raises np_where2_raises
  index2_raises index1_raises np_max_raises : raises.

Lemma extract_arrays_raises (ds : Dataset) (v la lo : string) :
  raises_only ProcessingFailure (extract_arrays ds v la lo).
Proof.
  unfold extract_arrays.
  repeat (apply raises_only_rbind; [ solve [auto with raises] | intro ]).
  apply raises_only_Ok.
Qed.

Lemma sparse_filter_raises (env : Env) (lats lons data : ndarray np_float)
                            (t : Qc) :
  raises_only ProcessingFailure (sparse_filter env lats lons data t).
Proof.
  unfold sparse_filter.
  apply raises_only_rbind; [ auto with raises | intros [ys xs] ].
  repeat (apply raises_only_rbind; [ solve [auto with raises] | intro ]).
  apply raises_only_rbind.
  - destruct (0 <? _); [ | auto with raises ].
    apply raises_only_rbind; [ auto with raises | intro ].
    apply raises_only_Ok.
  - intro. apply raises_only_Ok.
Qed.

Lemma sparse_json_raises (env : Env) (lats lons data : ndarray np_float)
                          (t : Qc) :
  raises_only ProcessingFailure (sparse_json env lats lons data t).
Proof.
  unfold sparse_json.
  apply raises_only_rbind; [ auto with raises | intros [ys xs] ].
  repeat (apply raises_only_rbind; [ solve [auto with raises] | intro ]).
  apply raises_only_Ok.
Qed.

(* ================================================================= *)
(** ** The entry points, stage by stage *)

(** The three outcomes of stage 1. *)
Lemma open_with_fallback_run (env : Env) (p : string) (tr : trace) :
  open_with_fallback env p tr =
    match open_dataset env p (Some "Grid"), open_dataset env p None with
    | Some d, _ =>
        (Ok (mk_Handle (fresh tr) d),
         tr ++ [EvOpen p (Some "Grid") (Some (fresh tr))])
    | None, Some d =>
        (Ok (mk_Handle (fresh tr) d),
         tr ++ [EvOpen p (Some "Grid") None; EvOpen p None (Some (fresh tr))])
    | None, None =>
        (Raise OpenFailure,
         tr ++ [EvOpen p (Some "Grid") None; EvOpen p None None])
    end.
Proof.
  unfold open_with_fallback, try_except, xr_open_dataset.
  destruct (open_dataset env p (Some "Grid")) as [d | ]; trivial.
  assert (F : fresh (tr ++ [EvOpen p (Some "Grid") None]) = fresh tr).
  { unfold fresh. rewrite filter_app. simpl. now rewrite app_nil_r. }
  destruct (open_dataset env p None) as [d | ];
    rewrite <- app_assoc; simpl; now rewrite ?F.
Qed.

Ltac run_cases :=
  repeat (match goal with
          | |- context [match ?x with _ => _ end] => destruct x
          end; simpl; trivial).

Lemma extract_cloud_arrays_run (env : Env) (f : string) (B : Bounds) (t : Qc)
                               (tr : trace) :
  _extract_cloud_arrays env f B t tr
  = run_with env f tr (fun d v => cloud_arrays_of env d v B t).
Proof.
  unfold _extract_cloud_arrays, run_with, path_of.
  destruct (path_exists env _); simpl; trivial.
  unfold bind.
  destruct (open_with_fallback env _ tr) as [[ds | e] tr1]; trivial.
  unfold finish, cloud_arrays_of, lift, close, ret.
  destruct (resolve_var (contents ds)) as [v | ]; trivial.
  all: run_cases.
Qed.

Lemma process_local_file_run (env : Env) (f : string) (B : Bounds)
                             (tr : trace) :
  process_local_file env f B tr
  = run_with env f tr (fun d v => grid_of env d v B).
Proof.
  unfold process_local_file, run_with, path_of.
  destruct (path_exists env _); simpl; trivial.
  unfold bind.
  destruct (open_with_fallback env _ tr) as [[ds | e] tr1]; trivial.
  unfold finish, grid_of, lift, close, ret.
  destruct (resolve_var (contents ds)) as [v | ]; trivial.
  all: run_cases.
Qed.

Lemma get_sparse_cloud_data_run (env : Env) (f : string) (B : Bounds) (t : Qc)
                                (tr : trace) :
  get_sparse_cloud_data env f B t tr
  = run_with env f tr (fun d v => sparse_json_of env d v B t).
Proof.
  unfold get_sparse_cloud_data, run_with, path_of.
  destruct (path_exists env _); simpl; trivial.
  unfold bind.
  destruct (open_with_fallback env _ tr) as [[ds | e] tr1]; trivial.
  unfold finish, sparse_json_of, lift, close, ret.
  destruct (resolve_var (contents ds)) as [v | ]; trivial.
  all: run_cases.
Qed.

Lemma cloud_arrays_of_raises env d v B t :
  raises_only ProcessingFailure (cloud_arrays_of env d v B t).
Proof.
  unfold cloud_arrays_of. apply raises_only_rbind.
  - apply extract_arrays_raises.
  - intros [[lats lons] data]. apply sparse_filter_raises.
Qed.

Lemma grid_of_raises env d v B :
  raises_only ProcessingFailure (grid_of env d v B).
Proof. apply extract_arrays_raises. Qed.

Lemma sparse_json_of_raises env d v B t :
  raises_only ProcessingFailure (sparse_json_of env d v B t).
Proof.
  unfold sparse_json_of. apply raises_only_rbind.
  - apply extract_arrays_raises.
  - intros [[lats lons] data]. apply sparse_json_raises.
Qed.

(** When a run ends with [OpenFailure]. *)
Lemma run_with_open_failure {A} (env : Env) (f : string) (tr : trace)
                            (body : Dataset -> string -> result A) :
  (forall d v, raises_only ProcessingFailure (body d v)) ->
  fst (run_with env f tr body) = Raise OpenFailure
  <-> path_exists env (path_of env f) = true
      /\ open_dataset env (path_of env f) (Some "Grid") = None
      /\ open_dataset env (path_of env f) None = None.
Proof.
  intro Hbody. unfold run_with.
  destruct (path_exists env (path_of env f)); simpl.
  2: { split; [ discriminate | intros [H _]; discriminate ]. }
  rewrite open_with_fallback_run.
  assert (Hfin : forall ds tr1,
             fst (finish ds tr1 (body (contents ds))) <> Raise OpenFailure).
  { intros ds tr1. unfold finish.
    destruct (resolve_var (contents ds)) as [v | ]; simpl; [ | discriminate ].
    destruct (body (contents ds) v) as [a | e] eqn:E; simpl; [ discriminate | ].
    apply Hbody in E. subst e. discriminate. }
  destruct (open_dataset env (path_of env f) (Some "Grid")) as [d | ].
  - split; [ intro H; now apply Hfin in H | intros (_ & H & _); discriminate ].
  - destruct (open_dataset env (path_of env f) None) as [d | ].
    + split; [ intro H; now apply Hfin in H
             | intros (_ & _ & H); discriminate ].
    + simpl. tauto.
Qed.

(* ================================================================= *)
(** ** C6: corner swaps *)

(** C6. For every bounding box [B] and each corner-swapped variant [B']
    (top and bottom swapped, left and right swapped, or both), the
    latitude and longitude ranges built from the minimum and maximum of the
    edges are the same, and so are the result of the cropper (in both of its
    forms) and the result of each of the three entry points. *)
Theorem crop_corner_swap (env : Env) (ds : Dataset) (v la lo f : string)
                         (t : Qc) (tr : trace) (B : Bounds) :
  Forall (fun B' =>
            lat_slice B' = lat_slice B
            /\ lon_slice B' = lon_slice B
            /\ crop env ds v la lo B' = crop env ds v la lo B
            /\ crop_sparse_json env ds la lo B'
               = crop_sparse_json env ds la lo B
            /\ _extract_cloud_arrays env f B' t tr
               = _extract_cloud_arrays env f B t tr
            /\ process_local_file env f B' tr = process_local_file env f B tr
            /\ get_sparse_cloud_data env f B' t tr
               = get_sparse_cloud_data env f B t tr)
         [ swap_top_bottom B; swap_left_right B;
           swap_top_bottom (swap_left_right B) ].
Proof.
  assert (K : forall B', same_ranges B B' ->
            lat_slice B' = lat_slice B
            /\ lon_slice B' = lon_slice B
            /\ crop env ds v la lo B' = crop env ds v la lo B
            /\ crop_sparse_json env ds la lo B'
               = crop_sparse_json env ds la lo B
            /\ _extract_cloud_arrays env f B' t tr
               = _extract_cloud_arrays env f B t tr
            /\ process_local_file env f B' tr = process_local_file env f B tr
            /\ get_sparse_cloud_data env f B' t tr
               = get_sparse_cloud_data env f B t tr).
  { intros B' H.
    destruct (pipeline_same_ranges env f B B' t tr H) as (E1 & E2 & E3).
    pose proof (crop_same_ranges env ds v la lo B B' H).
    pose proof (crop_sparse_json_same_ranges env ds la lo B B' H).
    destruct H. repeat split; assumption. }
  apply Forall_cons; [ apply K, swap_top_bottom_ranges | ].
  apply Forall_cons; [ apply K, swap_left_right_ranges | ].
  apply Forall_cons; [ apply K, swap_both_ranges | apply Forall_nil ].
Qed.

(** The ranges are the minimum and the maximum of the two edges. *)
Lemma py_min_is_min (a b : Qc) :
  (py_min a b = a \/ py_min a b = b)
  /\ (py_min a b <= a)%Qc /\ (py_min a b <= b)%Qc.
Proof.
  unfold py_min. destruct (gtb a b) eqn:H.
  - repeat split; auto.
    + apply Qclt_le_weak. now apply gtb_lt.
    + apply Qcle_refl.
  - repeat split; auto.
    + apply Qcle_refl.
    + now apply gtb_le.
Qed.

Lemma py_max_is_max (a b : Qc) :
  (py_max a b = a \/ py_max a b = b)
  /\ (a <= py_max a b)%Qc /\ (b <= py_max a b)%Qc.
Proof.
  split; [ apply py_max_cases | ].
  split; [ apply py_max_ge_l | apply py_max_ge_r ].
Qed.

(** [{top: 10, bottom: 5}] and [{top: 5, bottom: 10}] give the same
    range. *)
Example lat_slice_10_5 :
  lat_slice (mk_Bounds (num 10) (num 5) (num 0) (num 1))
  = lat_slice (mk_Bounds (num 5) (num 10) (num 0) (num 1)).
Proof.
  apply (proj1 (swap_top_bottom_ranges
                  (mk_Bounds (num 5) (num 10) (num 0) (num 1)))).
Qed.

(* ================================================================= *)
(** ** C9: a missing file is reported before anything is opened *)

(** C9. When the resolved path does not exist, each entry point raises
    [NotFound] and leaves the trace as it was: no open was attempted.  An
    entry point ends with [OpenFailure] exactly when the path exists and
    both the grouped and the ungrouped open fail. *)
Theorem not_found_before_open (env : Env) (f : string) (B : Bounds) (t : Qc)
                              (tr : trace) :
  (path_exists env (path_of env f) = false ->
     _extract_cloud_arrays env f B t tr = (Raise NotFound, tr)
     /\ process_local_file env f B tr = (Raise NotFound, tr)
     /\ get_sparse_cloud_data env f B t tr = (Raise NotFound, tr))
  /\ (fst (_extract_cloud_arrays env f B t tr) = Raise OpenFailure
      <-> path_exists env (path_of env f) = true
          /\ open_dataset env (path_of env f) (Some "Grid") = None
          /\ open_dataset env (path_of env f) None = None)
  /\ (fst (process_local_file env f B tr) = Raise OpenFailure
      <-> path_exists env (path_of env f) = true
          /\ open_dataset env (path_of env f) (Some "Grid") = None
          /\ open_dataset env (path_of env f) None = None)
  /\ (fst (get_sparse_cloud_data env f B t tr) = Raise OpenFailure
      <-> path_exists env (path_of env f) = true
          /\ open_dataset env (path_of env f) (Some "Grid") = None
          /\ open_dataset env (path_of env f) None = None).
Proof.
  rewrite extract_cloud_arrays_run, process_local_file_run,
    get_sparse_cloud_data_run.
  split; [ | split; [ | split ] ].
  - intro H. unfold run_with. now rewrite H.
  - apply run_with_open_failure. intros. apply cloud_arrays_of_raises.
  - apply run_with_open_failure. intros. apply grid_of_raises.
  - apply run_with_open_failure. intros. apply sparse_json_of_raises.
Qed.

(** A request for a file that is not there, and one for a file that
    neither layout opens. *)
Lemma not_found_before_open_witness :
  _extract_cloud_arrays Reference.env0 "missing.nc" Reference.world
                        (frac 1 10) []
  = (Raise NotFound, [])
  /\ fst (_extract_cloud_arrays Reference.env0 "broken.nc" Reference.world
                                (frac 1 10) [])
     = Raise OpenFailure.
Proof.
  split.
  - apply (proj1 (not_found_before_open Reference.env0 "missing.nc"
                    Reference.world (frac 1 10) [])).
    reflexivity.
  - apply (proj1 (proj2 (not_found_before_open Reference.env0 "broken.nc"
                           Reference.world (frac 1 10) []))).
    repeat split.
Defined.

(* ================================================================= *)
(** ** C8: schema resolution *)

Lemma find_first {A} (p : A -> bool) (l : list A) (x : A) :
  find p l = Some x
  <-> exists l1 l2, l = l1 ++ x :: l2 /\ p x = true
                    /\ forall u, In u l1 -> p u = false.
Proof.
  induction l as [ | a l IH]; simpl.
  - split; [ discriminate | intros ([ | ? ?] & l2 & H & _); discriminate ].
  - destruct (p a) eqn:Ea.
    + split.
      * intro H. injection H as <-. exists [], l. now repeat split.
      * intros (l1 & l2 & H & Hx & Hl1). destruct l1 as [ | b l1].
        -- simpl in H. congruence.
        -- simpl in H. injection H as <- _.
           rewrite (Hl1 a) in Ea by now left. discriminate.
    + rewrite IH. split.
      * intros (l1 & l2 & -> & Hx & Hl1). exists (a :: l1), l2.
        repeat split; trivial. intros u [<- | Hu]; auto.
      * intros (l1 & l2 & H & Hx & Hl1). destruct l1 as [ | b l1].
        -- simpl in H. injection H as -> _. congruence.
        -- simpl in H. injection H as <- ->. exists l1, l2.
           repeat split; trivial. intros u Hu. apply Hl1. now right.
Qed.

Lemma find_none {A} (p : A -> bool) (l : list A) :
  find p l = None <-> forall u, In u l -> p u = false.
Proof.
  split.
  - intros H u Hu. now apply (find_none p l H u).
  - induction l as [ | a l IH]; simpl; trivial.
    intro H. rewrite (H a) by now left.
    apply IH. intros u Hu. apply H. now right.
Qed.

(** C8. The resolver returns exactly the first candidate, in the order
    precipitationCal, precipitation, precip, that the dataset has; a dataset
    that has "precipitationCal" resolves to it whatever else it has; and on
    an opened dataset with none of the candidates each entry point raises
    [VariableNotFound] with the trace of the opening unchanged: nothing is
    tried again. *)
Theorem schema_resolution (ds : Dataset) :
  (forall v, resolve_var ds = Some v <-> first_present ds v)
  /\ (contains ds "precipitationCal" = true ->
      resolve_var ds = Some "precipitationCal")
  /\ ((forall u, In u candidates -> contains ds u = false) ->
      resolve_var ds = None
      /\ forall env f B t tr h tr1,
           path_exists env (path_of env f) = true ->
           open_with_fallback env (path_of env f) tr
           = (Ok (mk_Handle h ds), tr1) ->
           _extract_cloud_arrays env f B t tr = (Raise VariableNotFound, tr1)
           /\ process_local_file env f B tr = (Raise VariableNotFound, tr1)
           /\ get_sparse_cloud_data env f B t tr
              = (Raise VariableNotFound, tr1)).
Proof.
  split; [ | split ].
  - intro v. unfold resolve_var, first_present. apply find_first.
  - intro H. unfold resolve_var, candidates. simpl. now rewrite H.
  - intro H.
    assert (N : resolve_var ds = None) by now apply find_none.
    split; trivial.
    intros env f B t tr h tr1 He Ho.
    rewrite extract_cloud_arrays_run, process_local_file_run,
      get_sparse_cloud_data_run.
    unfold run_with. rewrite He, Ho. unfold finish. simpl.
    now rewrite N.
Qed.

(** A dataset with both "precipitationCal" and "precipitation", and a file
    without any known field. *)
Lemma schema_resolution_witness :
  resolve_var
    (mk_Dataset
       [ ("precipitation",
          mk_DataArray [] (mk_ndarray [] (singles [num 1])));
         ("precipitationCal",
          mk_DataArray [] (mk_ndarray [] (singles [num 2]))) ]
       [])
  = Some "precipitationCal"
  /\ _extract_cloud_arrays Reference.env0 "nofield.nc" Reference.world
                           (frac 1 10) []
     = (Raise VariableNotFound,
        [ EvOpen "data/nofield.nc" (Some "Grid") None;
          EvOpen "data/nofield.nc" None (Some 0) ]).
Proof.
  split.
  - apply (proj1 (proj2 (schema_resolution _))). reflexivity.
  - refine (proj1 (proj2 (proj2 (proj2 (schema_resolution Reference.no_field))
                            _)
                     Reference.env0 "nofield.nc" Reference.world (frac 1 10)
                     [] 0 _ _ _)).
    + intros u [<- | [<- | [<- | []]]]; reflexivity.
    + reflexivity.
    + reflexivity.
Defined.

(* ================================================================= *)
(** ** C10: listing the data directory *)

Lemma length_append (s1 s2 : string) :
  String.length (s1 ++ s2) = String.length s1 + String.length s2.
Proof. induction s1 as [ | c s1 IH]; simpl; auto. Qed.

Lemma substring_0_0 (s : string) : substring 0 0 s = "".
Proof. now destruct s. Qed.

Lemma substring_all (s : string) : substring 0 (String.length s) s = s.
Proof. induction s as [ | c s IH]; simpl; congruence. Qed.

Lemma substring_skip (pre s : string) (m : nat) :
  substring (String.length pre) m (pre ++ s) = substring 0 m s.
Proof. induction pre as [ | c pre IH]; simpl; trivial. Qed.

Lemma substring_split (k : nat) (s : string) :
  k <= String.length s ->
  s = (substring 0 k s ++ substring k (String.length s - k) s)%string.
Proof.
  revert s. induction k as [ | k IH]; intros s H.
  - rewrite substring_0_0, Nat.sub_0_r, substring_all. reflexivity.
  - destruct s as [ | c s]; simpl in *; [ lia | ].
    f_equal. apply IH. lia.
Qed.

(** [endswith] is the suffix test. *)
Lemma endswith_spec (s suf : string) :
  endswith s suf = true <-> exists pre, s = (pre ++ suf)%string.
Proof.
  unfold endswith. rewrite andb_true_iff, Nat.leb_le, String.eqb_eq. split.
  - intros [Hle Hsub].
    exists (substring 0 (String.length s - String.length suf) s).
    rewrite <- Hsub at 2.
    rewrite (substring_split (String.length s - String.length suf) s) at 1
      by lia.
    do 2 f_equal. lia.
  - intros [pre ->]. rewrite length_append. split; [ lia | ].
    replace (String.length pre + String.length suf - String.length suf)
      with (String.length pre) by lia.
    rewrite substring_skip. apply substring_all.
Qed.

(** The listing raises only from [os.listdir]. *)
Lemma list_available_files_raise (env : Env) (e : error) :
  list_available_files env = Raise e ->
  path_exists env (DATA_DIR env) = true
  /\ listdir env (DATA_DIR env) = None
  /\ e = ProcessingFailure.
Proof.
  unfold list_available_files, os_listdir.
  destruct (path_exists env (DATA_DIR env)); simpl; [ | discriminate ].
  destruct (listdir env (DATA_DIR env)); simpl; [ discriminate | ].
  intro H. injection H as <-. repeat split.
Qed.

(** C10, as stated, fails: listing the files raises when the data
    directory exists and [os.listdir] raises on it, here because the path
    is a regular file.  The existence test is passed and the error of
    [os.listdir] is not caught. *)
Lemma list_available_files_raises :
  path_exists Reference.env_file (DATA_DIR Reference.env_file) = true
  /\ list_available_files Reference.env_file = Raise ProcessingFailure
  /\ ~ exists l, list_available_files Reference.env_file = Ok l.
Proof.
  split; [ reflexivity | ]. split; [ reflexivity | ].
  intros [l H]. discriminate H.
Qed.

(** C10, amended.  When the data directory does not exist the result is
    the empty list.  When it exists and [os.listdir] returns its entries,
    the result is that listing restricted, in order, to the names that end
    with ".HDF5", ".nc" or ".nc4": a name is listed exactly when it is an
    entry of the directory with one of these endings.  When it exists and
    [os.listdir] raises, the listing raises; it raises in no other case. *)
Theorem list_available_files_listing (env : Env) :
  (path_exists env (DATA_DIR env) = false ->
   list_available_files env = Ok [])
  /\ (forall names,
        path_exists env (DATA_DIR env) = true ->
        listdir env (DATA_DIR env) = Some names ->
        exists l,
          list_available_files env = Ok l
          /\ l = filter (fun f => endswith f ".HDF5" || endswith f ".nc"
                                  || endswith f ".nc4")
                        names
          /\ forall f, In f l <-> In f names /\ recognised f)
  /\ (path_exists env (DATA_DIR env) = true ->
      listdir env (DATA_DIR env) = None ->
      list_available_files env = Raise ProcessingFailure)
  /\ (forall e,
        list_available_files env = Raise e ->
        path_exists env (DATA_DIR env) = true
        /\ listdir env (DATA_DIR env) = None).
Proof.
  split; [ | split; [ | split ] ].
  - intro H. unfold list_available_files. now rewrite H.
  - intros names He Hl. unfold list_available_files, os_listdir.
    rewrite He, Hl. simpl.
    eexists. split; [ reflexivity | ]. split; [ reflexivity | ].
    intro f. rewrite filter_In, !orb_true_iff, !endswith_spec.
    unfold recognised.
    split; intros [Hin H]; (split; [ exact Hin | ]).
    + destruct H as [[[s Hs] | [s Hs]] | [s Hs]]; exists s; tauto.
    + destruct H as [s [Hs | [Hs | Hs]]]; eauto.
  - intros He Hl. unfold list_available_files, os_listdir.
    now rewrite He, Hl.
  - intros e H. destruct (list_available_files_raise env e H) as (? & ? & _).
    now split.
Qed.

Example list_available_files_env0 :
  list_available_files Reference.env0
  = Ok ["small.nc"; "imerg.HDF5"; "nofield.nc"; "broken.nc"].
Proof. reflexivity. Qed.

(* ================================================================= *)
(** ** C2: the lifetime of the dataset handle *)

Lemma released_app (h : nat) (tr1 tr2 : trace) :
  released h (tr1 ++ tr2) = released h tr1 + released h tr2.
Proof. unfold released. now rewrite filter_app, length_app. Qed.

(** On the success path the handle opened by the run is closed once, at
    the very end; on every path that raises, the run closes nothing. *)
Lemma run_with_closes {A} (env : Env) (f : string) (tr : trace)
                      (body : Dataset -> string -> result A) :
  match run_with env f tr body with
  | (Ok _, tr') =>
      exists opening,
        tr' = tr ++ opening ++ [EvClose (fresh tr)]
        /\ existsb (opens_of (fresh tr)) opening = true
        /\ released (fresh tr) opening = 0
  | (Raise _, tr') =>
      exists opening,
        tr' = tr ++ opening
        /\ forall h, released h opening = 0
  end.
Proof.
  unfold run_with.
  destruct (path_exists env (path_of env f)).
  2: { exists []. now rewrite app_nil_r. }
  rewrite open_with_fallback_run.
  assert (K : forall d opening,
             existsb (opens_of (fresh tr)) opening = true ->
             (forall h, released h opening = 0) ->
             match finish (mk_Handle (fresh tr) d) (tr ++ opening)
                          (body d) with
             | (Ok _, tr') =>
                 exists opening,
                   tr' = tr ++ opening ++ [EvClose (fresh tr)]
                   /\ existsb (opens_of (fresh tr)) opening = true
                   /\ released (fresh tr) opening = 0
             | (Raise _, tr') =>
                 exists opening,
                   tr' = tr ++ opening /\ forall h, released h opening = 0
             end).
  { intros d opening Ho Hr. unfold finish. simpl.
    destruct (resolve_var d) as [v | ]; [ | now exists opening ].
    destruct (body d v) as [a | e] eqn:E.
    - exists opening. rewrite <- app_assoc. auto.
    - now exists opening. }
  destruct (open_dataset env (path_of env f) (Some "Grid")) as [d | ].
  - apply K; [ simpl; now rewrite Nat.eqb_refl | reflexivity ].
  - destruct (open_dataset env (path_of env f) None) as [d | ].
    + apply K; [ simpl; now rewrite Nat.eqb_refl | reflexivity ].
    + eexists. split; [ reflexivity | reflexivity ].
Qed.

Lemma released_once_on_success {A} (env : Env) (f : string) (tr tr' : trace)
                               (body : Dataset -> string -> result A) (a : A) :
  run_with env f tr body = (Ok a, tr') ->
  released (fresh tr) tr' = released (fresh tr) tr + 1.
Proof.
  intro H. pose proof (run_with_closes env f tr body) as K.
  rewrite H in K. destruct K as (opening & -> & _ & Hr).
  rewrite !released_app, Hr. unfold released at 2. simpl.
  now rewrite Nat.eqb_refl.
Qed.

Lemma never_released_on_failure {A} (env : Env) (f : string) (tr tr' : trace)
                                (body : Dataset -> string -> result A)
                                (e : error) :
  run_with env f tr body = (Raise e, tr') ->
  forall h, released h tr' = released h tr.
Proof.
  intros H h. pose proof (run_with_closes env f tr body) as K.
  rewrite H in K. destruct K as (opening & -> & Hr).
  rewrite released_app, Hr. lia.
Qed.

(** C2 (the code departs from it).  A file that exists and opens but holds
    none of the known fields: each of the three entry points raises
    [VariableNotFound] after handle 0 was opened, and the handle is released
    zero times.  On the same file system a request that succeeds releases
    its handle once. *)
Theorem handle_leaks_on_failure :
  (fst (_extract_cloud_arrays Reference.env0 "nofield.nc" Reference.world
                              (frac 1 10) [])
   = Raise VariableNotFound
   /\ existsb (opens_of 0)
              (snd (_extract_cloud_arrays Reference.env0 "nofield.nc"
                                          Reference.world (frac 1 10) []))
      = true
   /\ released 0 (snd (_extract_cloud_arrays Reference.env0 "nofield.nc"
                                             Reference.world (frac 1 10) []))
      = 0)
  /\ (fst (process_local_file Reference.env0 "nofield.nc" Reference.world [])
      = Raise VariableNotFound
      /\ released 0 (snd (process_local_file Reference.env0 "nofield.nc"
                                             Reference.world []))
         = 0)
  /\ (fst (get_sparse_cloud_data Reference.env0 "nofield.nc" Reference.world
                                 (frac 1 10) [])
      = Raise VariableNotFound
      /\ released 0 (snd (get_sparse_cloud_data Reference.env0 "nofield.nc"
                                                Reference.world (frac 1 10)
                                                []))
         = 0)
  /\ released 0 (snd (process_local_file Reference.env0 "imerg.HDF5"
                                         Reference.world []))
     = 1.
Proof. repeat split. Qed.

(* ================================================================= *)
(** ** C3: the fallback of the cropper *)

(** The cropper of [_extract_cloud_arrays] and [process_local_file] never
    fails: a raised selection and a selection without elements both give
    the full dataset. *)
Lemma crop_falls_back (env : Env) (ds : Dataset) (v la lo : string)
                      (B : Bounds) :
  (sel env ds (indexers la lo B) = None -> crop env ds v la lo B = ds)
  /\ (forall c a, sel env ds (indexers la lo B) = Some c ->
                  getitem c v = Ok a -> size a = 0 ->
                  crop env ds v la lo B = ds)
  /\ (forall c a, sel env ds (indexers la lo B) = Some c ->
                  getitem c v = Ok a -> size a <> 0 ->
                  crop env ds v la lo B = c).
Proof.
  unfold crop. repeat split.
  - now intros ->.
  - intros c a -> -> ->. reflexivity.
  - intros c a -> -> H. apply Nat.eqb_neq in H. now rewrite H.
Qed.

(** The cropper of [get_sparse_cloud_data] keeps a selection without
    elements. *)
Lemma crop_sparse_json_keeps_empty (env : Env) (ds c : Dataset) (la lo : string)
                                   (B : Bounds) :
  sel env ds (indexers la lo B) = Some c ->
  crop_sparse_json env ds la lo B = c.
Proof. unfold crop_sparse_json. now intros ->. Qed.

(** C3 (the code departs from it).  A box entirely outside the coordinates
    of the file: the selection succeeds and has no element.
    [_extract_cloud_arrays] and [process_local_file] answer as for the whole
    extent; [get_sparse_cloud_data] keeps the empty selection and fails with
    the error of [np.max] on an array without elements. *)
Theorem empty_selection_not_recovered :
  (exists c a,
      sel Reference.env0 Reference.imerg_grid
          (indexers "lat" "lon" Reference.far_away) = Some c
      /\ getitem c "precipitation" = Ok a
      /\ size a = 0)
  /\ _extract_cloud_arrays Reference.env0 "imerg.HDF5" Reference.far_away
                           (frac 1 10) []
     = _extract_cloud_arrays Reference.env0 "imerg.HDF5" Reference.world
                             (frac 1 10) []
  /\ process_local_file Reference.env0 "imerg.HDF5" Reference.far_away []
     = process_local_file Reference.env0 "imerg.HDF5" Reference.world []
  /\ succeeded (fst (process_local_file Reference.env0 "imerg.HDF5"
                                         Reference.far_away []))
     = true
  /\ fst (get_sparse_cloud_data Reference.env0 "imerg.HDF5" Reference.far_away
                                (frac 1 10) [])
     = Raise ProcessingFailure
  /\ succeeded (fst (get_sparse_cloud_data Reference.env0 "imerg.HDF5"
                                            Reference.world (frac 1 10) []))
     = true.
Proof.
  split; [ | repeat split ].
  do 2 eexists. repeat split.
Qed.

(* ================================================================= *)
(** ** Arrays: indexing lemmas *)

Section Uniform.

Context {A B : Type}.
Variable f : A -> list B.
Variable w : nat.

(** Blocks of equal width [w], laid end to end. *)
Lemma length_flat_map_uniform (l : list A) :
  (forall a, In a l -> length (f a) = w) ->
  length (flat_map f l) = length l * w.
Proof.
  induction l as [ | a l IH]; intro H; simpl; trivial.
  rewrite length_app, (H a) by now left.
  rewrite IH; trivial. intros b Hb. apply H. now right.
Qed.

Lemma nth_error_flat_map_uniform (l : list A) (j i : nat) :
  (forall a, In a l -> length (f a) = w) ->
  i < w ->
  nth_error (flat_map f l) (j * w + i)
  = match nth_error l j with
    | Some a => nth_error (f a) i
    | None => None
    end.
Proof.
  revert j. induction l as [ | a l IH]; intros j H Hi.
  - simpl. now destruct (j * w + i), j.
  - simpl. destruct j as [ | j]; simpl.
    + apply nth_error_app1. rewrite (H a) by now left. exact Hi.
    + rewrite nth_error_app2 by (rewrite (H a) by (now left); lia).
      rewrite (H a) by now left.
      replace (w + j * w + i - w) with (j * w + i) by lia.
      apply IH; trivial. intros b Hb. apply H. now right.
Qed.

End Uniform.

Lemma cell_Some {A} (r c : nat) (l : list A) (i j : nat) :
  length l = r * c -> i < r -> j < c -> cell c l i j <> None.
Proof.
  intros Hl Hi Hj. unfold cell. apply nth_error_Some. nia.
Qed.

Lemma length_opt_list_cell {A} (r c : nat) (l : list A) (i j : nat) :
  length l = r * c -> i < r -> j < c -> length (opt_list (cell c l i j)) = 1.
Proof.
  intros Hl Hi Hj. pose proof (cell_Some r c l i j Hl Hi Hj).
  now destruct (cell c l i j).
Qed.

Lemma length_column {A} (r c : nat) (l : list A) (j : nat) :
  length l = r * c -> j < c -> length (column r c l j) = r.
Proof.
  intros Hl Hj. unfold column.
  rewrite (length_flat_map_uniform _ 1), length_seq; [ lia | ].
  intros i Hi. apply in_seq in Hi. apply (length_opt_list_cell r); trivial; lia.
Qed.

Lemma nth_error_column {A} (r c : nat) (l : list A) (j i : nat) :
  length l = r * c -> j < c -> i < r ->
  nth_error (column r c l j) i = cell c l i j.
Proof.
  intros Hl Hj Hi. unfold column.
  replace i with (i * 1 + 0) at 1 by lia.
  rewrite (nth_error_flat_map_uniform _ 1); [ | | lia ].
  - rewrite nth_error_seq. apply Nat.ltb_lt in Hi. rewrite Hi. simpl.
    now destruct (cell c l i j).
  - intros k Hk. apply in_seq in Hk.
    apply (length_opt_list_cell r); trivial; lia.
Qed.

Lemma length_transpose_flat {A} (r c : nat) (l : list A) :
  length l = r * c -> length (transpose_flat r c l) = c * r.
Proof.
  intro Hl. unfold transpose_flat. fold (column r c l).
  rewrite (length_flat_map_uniform _ r), length_seq; trivial.
  intros j Hj. apply in_seq in Hj. apply length_column; trivial; lia.
Qed.

(** Element [(j, i)] of the transposed array is element [(i, j)] of the
    array. *)
Lemma cell_transpose_flat {A} (r c : nat) (l : list A) (i j : nat) :
  length l = r * c -> i < r -> j < c ->
  cell r (transpose_flat r c l) j i = cell c l i j.
Proof.
  intros Hl Hi Hj. unfold cell at 1, transpose_flat. fold (column r c l).
  rewrite (nth_error_flat_map_uniform _ r); trivial.
  - rewrite nth_error_seq. apply Nat.ltb_lt in Hj. rewrite Hj. simpl.
    apply Nat.ltb_lt in Hj. now apply nth_error_column.
  - intros k Hk. apply in_seq in Hk. apply length_column; trivial; lia.
Qed.

Lemma shape_eqb_eq (s1 s2 : list nat) : shape_eqb s1 s2 = true <-> s1 = s2.
Proof.
  unfold shape_eqb. destruct (list_eq_dec Nat.eq_dec s1 s2); split; congruence.
Qed.

(* ================================================================= *)
(** ** C7: orientation *)

(** C7. A well-formed value array whose shape is (lonCount, latCount) is
    replaced by its transpose: the result has shape (latCount, lonCount),
    holds latCount * lonCount elements, and its element at (latitude i,
    longitude j) is the element at (longitude j, latitude i) of the input.
    An array of any other shape is left as it is, so one whose shape is
    (latCount, lonCount) already keeps that shape.  In both layouts the
    shape after normalisation is (len(lats), len(lons)). *)
Theorem orient_lat_lon (data : ndarray np_float) (lonCount latCount : nat) :
  wf data ->
  shape data = [lonCount; latCount] \/ shape data = [latCount; lonCount] ->
  shape (orient data lonCount latCount) = [latCount; lonCount]
  /\ wf (orient data lonCount latCount)
  /\ (shape data = [lonCount; latCount] ->
      orient data lonCount latCount = T data
      /\ forall i j, i < latCount -> j < lonCount ->
           cell lonCount (flat (orient data lonCount latCount)) i j
           = cell latCount (flat data) j i)
  /\ (shape data <> [lonCount; latCount] ->
      orient data lonCount latCount = data).
Proof.
  intros Hwf Hshape. unfold wf, size in Hwf.
  assert (Htr : shape data = [lonCount; latCount] ->
                orient data lonCount latCount
                = mk_ndarray [latCount; lonCount]
                    (transpose_flat lonCount latCount (flat data))).
  { intro E. unfold orient, T. rewrite E.
    now rewrite (proj2 (shape_eqb_eq _ _) eq_refl). }
  assert (Hlen : shape data = [lonCount; latCount] ->
                 length (flat data) = lonCount * latCount).
  { intro E. rewrite E in Hwf. simpl in Hwf. lia. }
  destruct (list_eq_dec Nat.eq_dec (shape data) [lonCount; latCount])
    as [E | NE].
  - rewrite (Htr E). simpl. split; [ reflexivity | ]. split; [ | split ].
    + unfold wf, size. simpl. rewrite length_transpose_flat by auto. lia.
    + intros _. split.
      * unfold T. now rewrite E.
      * intros i j Hi Hj. now apply cell_transpose_flat; auto.
    + intro NE. contradiction.
  - destruct Hshape as [E | E]; [ contradiction | ].
    assert (Hid : orient data lonCount latCount = data).
    { unfold orient. destruct (shape_eqb _ _) eqn:Eb; trivial.
      apply shape_eqb_eq in Eb. contradiction. }
    rewrite Hid. split; [ exact E | ]. split; [ exact Hwf | ].
    split; [ intro; contradiction | reflexivity ].
Qed.

(** The field shaped (lonCount = 3, latCount = 2) with values
    [[1, 5], [2, 6], [3, 7]] becomes [[1, 2, 3], [5, 6, 7]]. *)
Lemma orient_lat_lon_witness :
  orient (mk_ndarray [3; 2]
            (singles [num 1; num 5; num 2; num 6; num 3; num 7])) 3 2
  = mk_ndarray [2; 3] (singles [num 1; num 2; num 3; num 5; num 6; num 7])
  /\ shape (orient (mk_ndarray [3; 2]
                      (singles [num 1; num 5; num 2; num 6; num 3; num 7])) 3 2)
     = [2; 3].
Proof.
  split.
  - reflexivity.
  - apply (orient_lat_lon
             (mk_ndarray [3; 2]
                (singles [num 1; num 5; num 2; num 6; num 3; num 7]))
             3 2).
    + reflexivity.
    + left. reflexivity.
Defined.

(** A square array always has the shape (lonCount, latCount): it is
    transposed whatever its layout was. *)
Remark orient_square (data : ndarray np_float) (n : nat) :
  shape data = [n; n] -> orient data n n = T data.
Proof.
  intro E. unfold orient. now rewrite E, (proj2 (shape_eqb_eq _ _) eq_refl).
Qed.

(** The same field through [process_local_file], from the (time, lon, lat)
    layout of an IMERG file. *)
Example process_local_file_imerg :
  fst (process_local_file Reference.env0 "imerg.HDF5" Reference.world [])
  = Ok (mk_ndarray [2] (singles [num 0; num 1]),
        mk_ndarray [3] (singles [num 10; num 20; num 30]),
        mk_ndarray [2; 3] (singles [num 1; num 2; num 3; num 5; num 6; num 7])).
Proof. reflexivity. Qed.

(* ================================================================= *)
(** ** Lists: scans by position *)

Lemma rmap_Ok {A B} (f : A -> result B) (g : A -> B) (l : list A) :
  (forall a, In a l -> f a = Ok (g a)) -> rmap f l = Ok (map g l).
Proof.
  induction l as [ | a l IH]; intro H; simpl; trivial.
  rewrite (H a) by now left.
  rewrite IH; trivial. intros b Hb. apply H. now right.
Qed.

Lemma rmap_map {A B C} (f : B -> result C) (h : A -> B) (l : list A) :
  rmap f (map h l) = rmap (fun a => f (h a)) l.
Proof.
  induction l as [ | a l IH]; simpl; trivial. now rewrite IH.
Qed.

Lemma combine_map_same {A B C} (f : A -> B) (g : A -> C) (l : list A) :
  combine (map f l) (map g l) = map (fun a => (f a, g a)) l.
Proof. induction l as [ | a l IH]; simpl; congruence. Qed.

Lemma concat_map_singleton {A B} (g : A -> B) (l : list A) :
  concat (map (fun a => [g a]) l) = map g l.
Proof. induction l as [ | a l IH]; simpl; congruence. Qed.

Lemma seq_offset (s n : nat) : seq s n = map (fun j => s + j) (seq 0 n).
Proof.
  revert s. induction n as [ | n IH]; intro s; simpl; trivial.
  rewrite Nat.add_0_r. f_equal.
  rewrite <- (seq_shift n 0), map_map, (IH (S s)).
  apply map_ext. intro j. lia.
Qed.

(** The flat positions of an array with [r] rows and [c] columns, row by
    row. *)
Lemma seq_rows (r c : nat) :
  seq 0 (r * c) = flat_map (fun i => map (fun j => i * c + j) (seq 0 c))
                           (seq 0 r).
Proof.
  induction r as [ | r IH]; trivial.
  rewrite seq_S, flat_map_app. simpl flat_map. rewrite app_nil_r.
  replace (S r * c) with (r * c + c) by lia.
  rewrite seq_app, IH. f_equal. apply seq_offset.
Qed.

Lemma filter_flat_map {A B} (p : B -> bool) (h : A -> list B) (l : list A) :
  filter p (flat_map h l) = flat_map (fun a => filter p (h a)) l.
Proof.
  induction l as [ | a l IH]; simpl; trivial. now rewrite filter_app, IH.
Qed.

Lemma map_flat_map {A B C} (g : B -> C) (h : A -> list B) (l : list A) :
  map g (flat_map h l) = flat_map (fun a => map g (h a)) l.
Proof.
  induction l as [ | a l IH]; simpl; trivial. now rewrite map_app, IH.
Qed.

Lemma flat_map_ext_in {A B} (f g : A -> list B) (l : list A) :
  (forall a, In a l -> f a = g a) -> flat_map f l = flat_map g l.
Proof.
  induction l as [ | a l IH]; intro H; simpl; trivial.
  rewrite (H a) by now left. f_equal. apply IH. intros b Hb. apply H. now right.
Qed.

Lemma map_filter_map {A B C} (g : B -> C) (p : B -> bool) (h : A -> B)
                     (l : list A) :
  map g (filter p (map h l))
  = flat_map (fun a => if p (h a) then [g (h a)] else []) l.
Proof.
  induction l as [ | a l IH]; simpl; trivial.
  destruct (p (h a)); simpl; now rewrite IH.
Qed.

(** Filtering the positions of a list and reading them back is filtering
    the list. *)
Lemma filter_positions {A} (p : A -> bool) (d : A) (l : list A) :
  map (fun k => nth k l d)
      (filter (fun k => p (nth k l d)) (seq 0 (length l)))
  = filter p l.
Proof.
  induction l as [ | x l IH] using rev_ind; trivial.
  rewrite length_app. simpl length. rewrite seq_app, !filter_app, map_app.
  f_equal.
  - rewrite <- IH.
    rewrite (filter_ext_in (fun k => p (nth k (l ++ [x]) d))
                           (fun k => p (nth k l d))).
    + apply map_ext_in. intros k Hk. apply filter_In in Hk.
      destruct Hk as [Hk _]. apply in_seq in Hk. apply app_nth1. lia.
    + intros k Hk. apply in_seq in Hk. f_equal. apply app_nth1. lia.
  - simpl. rewrite app_nth2, Nat.sub_diag by lia. simpl.
    destruct (p x); simpl; trivial.
    now rewrite app_nth2, Nat.sub_diag by lia.
Qed.

Lemma length_filter_positions {A} (p : A -> bool) (d : A) (l : list A) :
  length (filter (fun k => p (nth k l d)) (seq 0 (length l)))
  = length (filter p l).
Proof. now rewrite <- (filter_positions p d l), length_map. Qed.

Lemma firstn_1_skipn {A} (d : A) (l : list A) (i : nat) :
  i < length l -> firstn 1 (skipn (i * 1) l) = [nth i l d].
Proof.
  rewrite Nat.mul_1_r. revert i. induction l as [ | x l IH]; intros i H.
  - simpl in H. lia.
  - destruct i as [ | i]; simpl.
    + now destruct l.
    + apply IH. simpl in H. lia.
Qed.

(* ================================================================= *)
(** ** The sparse filter on a cropped grid *)

Lemma mask_positions (keep : np_float -> bool) (G : list np_float) :
  filter (fun k => nth k (map keep G) false) (seq 0 (length G))
  = above keep G (length G).
Proof.
  unfold above. apply filter_ext_in. intros k Hk. apply in_seq in Hk.
  rewrite (nth_indep _ false (keep NaN)) by (rewrite length_map; lia).
  apply (map_nth keep).
Qed.

Lemma above_lt (keep : np_float -> bool) (G : list np_float) (n k : nat) :
  In k (above keep G n) -> k < n.
Proof.
  unfold above. intro H. apply filter_In in H. destruct H as [H _].
  apply in_seq in H. lia.
Qed.

Lemma row_col_bounds (La Lo k : nat) :
  k < La * Lo -> k / Lo < La /\ k mod Lo < Lo /\ k / Lo * Lo + k mod Lo = k.
Proof.
  intro H. assert (Lo <> 0) by nia. repeat split.
  - apply Nat.Div0.div_lt_upper_bound. lia.
  - now apply Nat.mod_upper_bound.
  - pose proof (Nat.div_mod_eq k Lo). lia.
Qed.

(** What the filter computes on a cropped grid, in closed form. *)
Lemma sparse_filter_run (env : Env) (lats lons data : ndarray np_float)
                        (La Lo : nat) (t : Qc) :
  cropped_grid lats lons data La Lo ->
  sparse_filter env lats lons data t
  = Ok (mk_CloudArrays
          (mk_ndarray [length (above (passes env t) (flat data) (La * Lo))]
             (map (fun k => cast32 (to_float32 env)
                              (nth (k / Lo) (flat lats) NaN))
                  (above (passes env t) (flat data) (La * Lo))))
          (mk_ndarray [length (above (passes env t) (flat data) (La * Lo))]
             (map (fun k => cast32 (to_float32 env)
                              (nth (k mod Lo) (flat lons) NaN))
                  (above (passes env t) (flat data) (La * Lo))))
          (mk_ndarray [length (above (passes env t) (flat data) (La * Lo))]
             (map (fun k => cast32 (to_float32 env) (nth k (flat data) NaN))
                  (above (passes env t) (flat data) (La * Lo))))
          (if 0 <? length (above (passes env t) (flat data) (La * Lo))
           then py_float (grid_max (flat data)) else Num Double (num 0))).
Proof.
  destruct lats as [sa fa], lons as [so fo], data as [sd fd].
  unfold cropped_grid. simpl.
  intros (-> & Hfa & -> & Hfo & -> & Hfd).
  unfold sparse_filter, np_where2, np_gt. simpl.
  assert (Em : filter (fun k => nth k (map (fun v =>
                                  cell_gt (to_float32 env) v t) fd) false)
                      (seq 0 (La * Lo))
               = above (passes env t) fd (La * Lo))
    by (rewrite <- Hfd; apply (mask_positions (passes env t))).
  rewrite Em. clear Em.
  set (ks := above (passes env t) fd (La * Lo)).
  assert (Hks : forall k, In k ks -> k < La * Lo) by apply above_lt.
  (* data[y_idxs, x_idxs] *)
  unfold index2. simpl.
  rewrite combine_map_same, rmap_map.
  rewrite (rmap_Ok _ (fun k => nth k fd NaN)).
  2: { intros k Hk. apply Hks in Hk.
       destruct (row_col_bounds La Lo k Hk) as (Hy & Hx & E).
       apply Nat.ltb_lt in Hy, Hx. rewrite Hy, Hx. simpl.
       unfold cell. rewrite E.
       now rewrite (nth_error_nth' fd NaN) by lia. }
  simpl.
  (* lats[y_idxs] *)
  unfold index1. simpl.
  rewrite rmap_map, (rmap_Ok _ (fun k => [nth (k / Lo) fa NaN])).
  2: { intros k Hk. apply Hks in Hk.
       destruct (row_col_bounds La Lo k Hk) as (Hy & Hx & E).
       pose proof Hy as Hy'. apply Nat.ltb_lt in Hy'. rewrite Hy'.
       f_equal. apply (firstn_1_skipn NaN). lia. }
  simpl.
  (* lons[x_idxs] *)
  rewrite rmap_map, (rmap_Ok _ (fun k => [nth (k mod Lo) fo NaN])).
  2: { intros k Hk. apply Hks in Hk.
       destruct (row_col_bounds La Lo k Hk) as (Hy & Hx & E).
       pose proof Hx as Hx'. apply Nat.ltb_lt in Hx'. rewrite Hx'.
       f_equal. apply (firstn_1_skipn NaN). lia. }
  simpl.
  rewrite !concat_map_singleton, !length_map.
  unfold astype, np_len. simpl. rewrite !map_map.
  destruct (0 <? length ks) eqn:Hn; simpl; trivial.
  unfold np_max. simpl.
  destruct fd as [ | x xs]; simpl; trivial.
  (* no cell at all: no position above the threshold *)
  apply Nat.ltb_lt in Hn. simpl in Hfd.
  destruct ks as [ | k ks'] eqn:Eks; simpl in Hn; [ lia | ].
  specialize (Hks k (or_introl eq_refl)). lia.
Qed.

Lemma length_above (keep : np_float -> bool) (G : list np_float) :
  length (above keep G (length G)) = count_above keep G.
Proof.
  unfold above, count_above. apply (length_filter_positions keep NaN G).
Qed.

Lemma above_scan (keep : np_float -> bool) (lats lons G : list np_float)
                 (La Lo : nat) :
  length lats = La -> length lons = Lo -> length G = La * Lo ->
  map (fun k => (nth (k / Lo) lats NaN, nth (k mod Lo) lons NaN,
                 nth k G NaN))
      (above keep G (La * Lo))
  = row_major_scan keep lats lons G La Lo.
Proof.
  intros Hla Hlo HG. unfold above, row_major_scan.
  rewrite seq_rows, filter_flat_map, map_flat_map.
  apply flat_map_ext_in. intros i Hi. apply in_seq in Hi.
  rewrite map_filter_map.
  apply flat_map_ext_in. intros j Hj. apply in_seq in Hj.
  assert (Lo <> 0) by lia.
  assert (Ei : (i * Lo + j) / Lo = i).
  { rewrite Nat.div_add_l, Nat.div_small by lia. lia. }
  assert (Ej : (i * Lo + j) mod Lo = j).
  { rewrite Nat.add_comm, Nat.Div0.mod_add. apply Nat.mod_small. lia. }
  rewrite Ei, Ej. unfold cell.
  rewrite (nth_error_nth' lats NaN) by lia.
  rewrite (nth_error_nth' lons NaN) by lia.
  rewrite (nth_error_nth' G NaN) by nia.
  reflexivity.
Qed.

(** The count and the scan depend on the test only through the cells of
    the grid. *)
Lemma count_above_ext (keep keep' : np_float -> bool) (G : list np_float) :
  (forall c, In c G -> keep c = keep' c) ->
  count_above keep G = count_above keep' G.
Proof.
  intro H. unfold count_above. f_equal. now apply filter_ext_in.
Qed.

Lemma row_major_scan_ext (keep keep' : np_float -> bool)
                         (lats lons G : list np_float) (La Lo : nat) :
  (forall c, In c G -> keep c = keep' c) ->
  row_major_scan keep lats lons G La Lo
  = row_major_scan keep' lats lons G La Lo.
Proof.
  intro H. unfold row_major_scan.
  apply flat_map_ext_in. intros i _. apply flat_map_ext_in. intros j _.
  destruct (nth_error lats i); trivial.
  destruct (nth_error lons j); trivial.
  unfold cell. destruct (nth_error G (i * Lo + j)) as [v | ] eqn:E; trivial.
  rewrite (H v); trivial. now apply nth_error_In in E.
Qed.

(** The test of the code is the exact comparison when the threshold is a
    binary32 number, and on every cell of double precision. *)
Lemma passes_exact (env : Env) (t : Qc) (c : np_float) :
  exact_for env t c -> passes env t c = exceeds t c.
Proof.
  unfold exact_for, passes, cell_gt, exceeds, as_precision.
  destruct c as [[ | ] q | ]; intros [E | H]; trivial.
  - now rewrite E.
  - destruct H.
Qed.

(* ================================================================= *)
(** ** C5: the filtered points are the cells above the threshold *)

(** C5, as stated, fails.  The grid [[0.1f, 0.5]] of single precision holds
    two cells strictly greater than the threshold 0.1 (the double nearest
    to one tenth): 0.1f, the binary32 number 13421773 / 2^27, is greater
    than it.  The comparison [data > threshold] rounds the threshold to
    binary32, which gives 0.1f itself, and the filter returns one point. *)
Lemma count_misses_cell_above_threshold :
  count_above (exceeds (frac 3602879701896397 36028797018963968))
    [Num Single (frac 13421773 134217728); Num Single (frac 1 2)]
  = 2
  /\ option_map (fun r => shape (valid_rain r))
       (value (sparse_filter Reference.env0
                 (mk_ndarray [1] (singles [num 0]))
                 (mk_ndarray [2] (singles [num 0; num 1]))
                 (mk_ndarray [1; 2]
                    [Num Single (frac 13421773 134217728);
                     Num Single (frac 1 2)])
                 (frac 3602879701896397 36028797018963968)))
     = Some [1]
  /\ option_map triples
       (value (sparse_filter Reference.env0
                 (mk_ndarray [1] (singles [num 0]))
                 (mk_ndarray [2] (singles [num 0; num 1]))
                 (mk_ndarray [1; 2]
                    [Num Single (frac 13421773 134217728);
                     Num Single (frac 1 2)])
                 (frac 3602879701896397 36028797018963968)))
     = Some [cast3 Reference.env0
               (Num Single (num 0), Num Single (num 1),
                Num Single (frac 1 2))].
Proof.
  split; [ reflexivity | ].
  split; [ vm_compute; reflexivity | ].
  split; vm_compute; reflexivity.
Qed.

(** C5, amended.  On a cropped grid (coordinates of lengths La and Lo,
    values shaped La x Lo) the sparse filter returns; its three output
    arrays are one-dimensional with the same length [count]; [count] is the
    number of cells that hold a number strictly greater than the threshold
    as rounded to the precision of the cell (to binary32 on a grid of
    single precision; a NaN cell never counts); and the (lat, lon, value)
    triples are the 32-bit casts of exactly those cells with the latitude
    of their row and the longitude of their column, in the order of a
    row-major scan.  When the threshold is a binary32 number, or the grid
    is of double precision, these are the cells strictly greater than the
    threshold itself. *)
Theorem sparse_filter_scan (env : Env) (lats lons data : ndarray np_float)
                           (La Lo : nat) (t : Qc) :
  cropped_grid lats lons data La Lo ->
  exists r,
    sparse_filter env lats lons data t = Ok r
    /\ shape (valid_lats r) = [count_above (passes env t) (flat data)]
    /\ shape (valid_lons r) = [count_above (passes env t) (flat data)]
    /\ shape (valid_rain r) = [count_above (passes env t) (flat data)]
    /\ length (flat (valid_lats r)) = count_above (passes env t) (flat data)
    /\ length (flat (valid_lons r)) = count_above (passes env t) (flat data)
    /\ length (flat (valid_rain r)) = count_above (passes env t) (flat data)
    /\ triples r
       = map (cast3 env)
           (row_major_scan (passes env t) (flat lats) (flat lons)
                           (flat data) La Lo)
    /\ (Forall (exact_for env t) (flat data) ->
        count_above (passes env t) (flat data)
        = count_above (exceeds t) (flat data)
        /\ row_major_scan (passes env t) (flat lats) (flat lons)
                          (flat data) La Lo
           = row_major_scan (exceeds t) (flat lats) (flat lons)
                            (flat data) La Lo).
Proof.
  intro H. rewrite (sparse_filter_run env lats lons data La Lo t H).
  destruct H as (_ & Hla & _ & Hlo & _ & HG).
  eexists. split; [ reflexivity | ].
  unfold triples. simpl. rewrite !length_map.
  rewrite <- (above_scan (passes env t) (flat lats) (flat lons) (flat data)
                La Lo Hla Hlo HG).
  rewrite !combine_map_same, map_map.
  assert (Ec : length (above (passes env t) (flat data) (La * Lo))
               = count_above (passes env t) (flat data))
    by (rewrite <- HG; apply length_above).
  rewrite Ec. repeat (split; [ reflexivity | ]).
  intro Hex. rewrite Forall_forall in Hex.
  assert (E : forall c, In c (flat data) -> passes env t c = exceeds t c)
    by (intros c Hc; apply passes_exact; auto).
  split.
  - now apply count_above_ext.
  - rewrite (above_scan (passes env t) (flat lats) (flat lons) (flat data)
               La Lo Hla Hlo HG).
    now apply row_major_scan_ext.
Qed.

(** Threshold 0.25 on the grid [[0.0, 0.5], [0.0625, 5.0]] of single
    precision, with latitudes 10, 20 and longitudes 30, 40: two points,
    0.5 at (10, 40) and 5.0 at (20, 40). *)
Lemma sparse_filter_scan_witness :
  count_above (exceeds (frac 1 4))
    (singles [num 0; frac 1 2; frac 1 16; num 5]) = 2
  /\ row_major_scan (exceeds (frac 1 4))
          (singles [num 10; num 20]) (singles [num 30; num 40])
          (singles [num 0; frac 1 2; frac 1 16; num 5]) 2 2
     = [ (Num Single (num 10), Num Single (num 40), Num Single (frac 1 2));
         (Num Single (num 20), Num Single (num 40), Num Single (num 5)) ]
  /\ exists r,
       sparse_filter Reference.env0
         (mk_ndarray [2] (singles [num 10; num 20]))
         (mk_ndarray [2] (singles [num 30; num 40]))
         (mk_ndarray [2; 2] (singles [num 0; frac 1 2; frac 1 16; num 5]))
         (frac 1 4)
       = Ok r
       /\ shape (valid_rain r) = [2]
       /\ triples r
          = map (cast3 Reference.env0)
              [ (Num Single (num 10), Num Single (num 40),
                 Num Single (frac 1 2));
                (Num Single (num 20), Num Single (num 40),
                 Num Single (num 5)) ].
Proof.
  split; [ reflexivity | ]. split; [ reflexivity | ].
  destruct (sparse_filter_scan Reference.env0
              (mk_ndarray [2] (singles [num 10; num 20]))
              (mk_ndarray [2] (singles [num 30; num 40]))
              (mk_ndarray [2; 2] (singles [num 0; frac 1 2; frac 1 16; num 5]))
              2 2 (frac 1 4))
    as (r & Hr & _ & _ & Hs & _ & _ & _ & Ht & Hex).
  - repeat split.
  - assert (X : Forall (exact_for Reference.env0 (frac 1 4))
                  (singles [num 0; frac 1 2; frac 1 16; num 5]))
      by (repeat (apply Forall_cons;
                    [ left; apply Qc_is_canon; reflexivity | ]);
          apply Forall_nil).
    destruct (Hex X) as [Ec Es].
    exists r. split; [ exact Hr | ].
    rewrite Hs, Ht, Ec, Es. split; reflexivity.
Defined.

(* ================================================================= *)
(** ** C1: the reported maximum *)

Lemma is_max_unique (m m' : Qc) (G : list Qc) :
  is_max m G -> is_max m' G -> m = m'.
Proof.
  intros [Hin Hle] [Hin' Hle']. rewrite Forall_forall in Hle, Hle'.
  apply Qcle_antisym; auto.
Qed.

Lemma finite_or_nan (G : list np_float) : In NaN G \/ finite G.
Proof.
  induction G as [ | c G [IH | IH]].
  - right. constructor.
  - left. now right.
  - destruct c as [p q | ].
    + right. constructor; [ discriminate | exact IH ].
    + left. now left.
Qed.

Lemma finite_not_nan (G : list np_float) : finite G -> ~ In NaN G.
Proof.
  intros H Hin. unfold finite in H. rewrite Forall_forall in H.
  now apply (H NaN Hin).
Qed.

Lemma maximum_nan_r (a : np_float) : maximum a NaN = NaN.
Proof. now destruct a. Qed.

Lemma fold_maximum_nan (xs : list np_float) :
  fold_left maximum xs NaN = NaN.
Proof. induction xs as [ | y ys IH]; simpl; trivial. Qed.

(** [np.max] of cells one of which is NaN. *)
Lemma fold_maximum_has_nan (xs : list np_float) (x : np_float) :
  In NaN (x :: xs) -> fold_left maximum xs x = NaN.
Proof.
  revert x. induction xs as [ | y ys IH]; intros x H.
  - destruct H as [-> | []]. reflexivity.
  - simpl. destruct H as [-> | [-> | H]].
    + apply fold_maximum_nan.
    + rewrite maximum_nan_r. apply fold_maximum_nan.
    + apply IH. now right.
Qed.

(** [np.max] of cells none of which is NaN: the greatest number. *)
Lemma fold_maximum_finite (xs : list np_float) (p : precision) (x : Qc) :
  finite xs ->
  exists p' m,
    fold_left maximum xs (Num p x) = Num p' m
    /\ (x <= m)%Qc
    /\ Forall (fun v => (v <= m)%Qc) (numbers xs)
    /\ (m = x \/ In m (numbers xs)).
Proof.
  revert p x. induction xs as [ | y ys IH]; intros p x H.
  - exists p, x. simpl.
    split; [ reflexivity | ]. split; [ apply Qcle_refl | ].
    split; [ constructor | now left ].
  - inversion H as [ | ? ? Hy Hys]; subst.
    destruct y as [py y | ]; [ | congruence ].
    cbn [fold_left maximum].
    destruct (gtb y x) eqn:E.
    + destruct (IH py y Hys) as (p' & m & Hm & Hge & Hall & Hin).
      exists p', m. split; [ exact Hm | ].
      apply gtb_lt in E.
      split; [ | split ].
      * apply Qcle_trans with y; trivial. now apply Qclt_le_weak.
      * simpl. constructor; trivial.
      * right. simpl. destruct Hin as [-> | Hin]; auto.
    + destruct (IH p x Hys) as (p' & m & Hm & Hge & Hall & Hin).
      exists p', m. split; [ exact Hm | ].
      apply gtb_le in E.
      split; [ exact Hge | split ].
      * simpl. constructor; trivial. now apply Qcle_trans with x.
      * destruct Hin as [-> | Hin]; [ now left | right; simpl; auto ].
Qed.

(** [float(np.max(G))] on a grid that has a cell. *)
Lemma grid_max_is_np_max (G : list np_float) :
  G <> [] -> is_np_max (py_float (grid_max G)) G.
Proof.
  destruct G as [ | x xs]; [ congruence | intros _ ].
  unfold grid_max, is_np_max.
  destruct (finite_or_nan (x :: xs)) as [Hn | Hf].
  - left. split; trivial. now rewrite fold_maximum_has_nan.
  - right. split; trivial.
    inversion Hf as [ | ? ? Hx Hxs]; subst.
    destruct x as [p x | ]; [ | congruence ].
    destruct (fold_maximum_finite xs p x Hxs)
      as (p' & m & -> & Hge & Hall & Hin).
    exists m. split; [ reflexivity | ]. simpl. split.
    + destruct Hin as [-> | Hin]; [ now left | now right ].
    + now constructor.
Qed.

(** C1, as stated, fails.  The IMERG example holds the cells 1, 2, 3, 5, 6,
    7; with threshold 10 no cell passes, [_extract_cloud_arrays] returns,
    and its [max_val] is 0.0, which is not the maximum 7 of the grid (a
    grid that is not empty). *)
Lemma max_val_zero_on_rainy_grid :
  fst (process_local_file Reference.env0 "imerg.HDF5" Reference.world [])
  = Ok (mk_ndarray [2] (singles [num 0; num 1]),
        mk_ndarray [3] (singles [num 10; num 20; num 30]),
        mk_ndarray [2; 3]
          (singles [num 1; num 2; num 3; num 5; num 6; num 7]))
  /\ option_map max_val
       (value (fst (_extract_cloud_arrays Reference.env0 "imerg.HDF5"
                                          Reference.world (num 10) [])))
     = Some (Num Double (num 0))
  /\ is_max (num 7)
       (numbers (singles [num 1; num 2; num 3; num 5; num 6; num 7]))
  /\ ~ is_max (num 0)
         (numbers (singles [num 1; num 2; num 3; num 5; num 6; num 7])).
Proof.
  split; [ reflexivity | ]. split; [ reflexivity | ]. split.
  - split.
    + simpl. tauto.
    + repeat constructor; discriminate.
  - intros [_ H]. rewrite Forall_forall in H.
    apply (H (num 7)).
    + simpl. tauto.
    + reflexivity.
Qed.

(** C1, amended.  On a cropped grid the sparse filter returns.  Whenever at
    least one cell passes the threshold test, its [max_val] is what
    [np.max] gives over the whole grid: the maximum of the numbers in the
    cells when no cell is NaN, and NaN as soon as one cell is.  When no cell
    passes (the count is 0, which includes the grid without cells)
    [max_val] is 0.0. *)
Theorem max_val_guarded (env : Env) (lats lons data : ndarray np_float)
                        (La Lo : nat) (t : Qc) :
  cropped_grid lats lons data La Lo ->
  exists r,
    sparse_filter env lats lons data t = Ok r
    /\ (0 < count_above (passes env t) (flat data) ->
        is_np_max (max_val r) (flat data))
    /\ (count_above (passes env t) (flat data) = 0 ->
        max_val r = Num Double (num 0)).
Proof.
  intro H. rewrite (sparse_filter_run env lats lons data La Lo t H).
  destruct H as (_ & _ & _ & _ & _ & HG).
  eexists. split; [ reflexivity | ]. simpl.
  assert (Ec : length (above (passes env t) (flat data) (La * Lo))
               = count_above (passes env t) (flat data))
    by (rewrite <- HG; apply length_above).
  rewrite Ec. split.
  - intro Hpos. pose proof Hpos as Hb. apply Nat.ltb_lt in Hb. rewrite Hb.
    apply grid_max_is_np_max. intro E. rewrite E in Hpos.
    unfold count_above in Hpos. simpl in Hpos. lia.
  - intros ->. reflexivity.
Qed.

(** Threshold 0.25 on [[0.0, 0.5], [0.0625, 5.0]]: two cells pass and the
    maximum reported is 5.0, the maximum of the grid. *)
Lemma max_val_guarded_witness :
  exists r,
    sparse_filter Reference.env0
      (mk_ndarray [2] (singles [num 10; num 20]))
      (mk_ndarray [2] (singles [num 30; num 40]))
      (mk_ndarray [2; 2] (singles [num 0; frac 1 2; frac 1 16; num 5]))
      (frac 1 4)
    = Ok r
    /\ is_np_max (max_val r) (singles [num 0; frac 1 2; frac 1 16; num 5])
    /\ max_val r = Num Double (num 5).
Proof.
  destruct (max_val_guarded Reference.env0
              (mk_ndarray [2] (singles [num 10; num 20]))
              (mk_ndarray [2] (singles [num 30; num 40]))
              (mk_ndarray [2; 2] (singles [num 0; frac 1 2; frac 1 16; num 5]))
              2 2 (frac 1 4))
    as (r & Hr & Hmax & _).
  - repeat split.
  - exists r. split; [ exact Hr | ].
    assert (M : is_np_max (max_val r)
                  (singles [num 0; frac 1 2; frac 1 16; num 5])).
    { apply Hmax. vm_compute. lia. }
    split; [ exact M | ].
    destruct M as [[Hn _] | (_ & m & -> & M)].
    + simpl in Hn. repeat (destruct Hn as [Hn | Hn]; [ discriminate Hn | ]).
      destruct Hn.
    + f_equal. apply (is_max_unique _ _ _ M). split.
      * simpl. tauto.
      * repeat constructor; discriminate.
Defined.

(** A cell without a value: [max_val] is NaN when a cell passes. *)
Example max_val_nan :
  option_map max_val
    (value (sparse_filter Reference.env0
              (mk_ndarray [1] (singles [num 0]))
              (mk_ndarray [2] (singles [num 0; num 1]))
              (mk_ndarray [1; 2] [Num Single (num 5); NaN])
              (frac 1 4)))
  = Some NaN.
Proof. reflexivity. Qed.

(* ================================================================= *)
(** ** C4: the binary payload *)

Lemma to_N_byte_of_N (m : N) : (m < 256)%N -> Byte.to_N (byte_of_N m) = m.
Proof.
  intro H. unfold byte_of_N. destruct (Byte.of_N m) as [b | ] eqn:E.
  - now apply Byte.to_of_N.
  - apply Byte.of_N_None_iff in E. lia.
Qed.

(** Reading the four bytes back gives the count. *)
Lemma N_of_le_uint32 (n : N) : (n < 2 ^ 32)%N -> N_of_le (le_uint32 n) = n.
Proof.
  intro H. unfold le_uint32, N_of_le. cbn [fold_right].
  rewrite !to_N_byte_of_N by (apply N.mod_lt; discriminate).
  change (2 ^ 32)%N with 4294967296%N in H.
  pose proof (N.div_mod n 256 ltac:(discriminate)) as E0.
  pose proof (N.div_mod (n / 256) 256 ltac:(discriminate)) as E1.
  pose proof (N.div_mod (n / 256 / 256) 256 ltac:(discriminate)) as E2.
  pose proof (N.div_mod (n / 256 / 256 / 256) 256 ltac:(discriminate)) as E3.
  assert (D2 : (n / 65536 = n / 256 / 256)%N)
    by (now rewrite N.Div0.div_div).
  assert (D3 : (n / 16777216 = n / 256 / 256 / 256)%N)
    by (now rewrite !N.Div0.div_div).
  assert (Z3 : (n / 256 / 256 / 256 / 256 = 0)%N).
  { rewrite !N.Div0.div_div. apply N.div_small. simpl. lia. }
  rewrite D2, D3. rewrite Z3 in E3. lia.
Qed.

Lemma length_le_uint32 (n : N) : length (le_uint32 n) = 4.
Proof. reflexivity. Qed.

Lemma length_tobytes (a : ndarray float32) :
  length (tobytes a) = 4 * length (flat a).
Proof.
  unfold tobytes. rewrite (length_flat_map_uniform _ 4); [ lia | ].
  intros f _. reflexivity.
Qed.

(** Reading as many floats as were written gives them back and leaves what
    follows. *)
Lemma read_floats_tobytes (l : list float32) (rest : list byte) :
  read_floats (length l) (flat_map float32_bytes l ++ rest) = Some (l, rest).
Proof.
  induction l as [ | f l IH]; simpl; trivial.
  rewrite IH. now destruct f.
Qed.

(** A maximum that fits is packed as its cast. *)
Lemma pack_f_fits (env : Env) (x : np_float) :
  fits_float32 env x -> pack_f env x = Ok (cast32 (to_float32 env) x).
Proof.
  destruct x as [p q | ]; simpl; trivial. now intros ->.
Qed.

(** A maximum that rounds to an infinity is not packed. *)
Lemma pack_f_overflow (env : Env) (x : np_float) :
  ~ fits_float32 env x -> pack_f env x = Raise ProcessingFailure.
Proof.
  destruct x as [p q | ]; simpl; [ | tauto ].
  destruct (is_inf32 (to_float32 env q)); trivial. congruence.
Qed.

Lemma get_gpm_data_bin (env : Env) (f : string)
                       (toplat bottomlat leftlon rightlon t : Qc)
                       (tr tr' : trace) (a : CloudArrays) (count : nat) :
  _extract_cloud_arrays env f (mk_Bounds toplat bottomlat leftlon rightlon)
                        t tr
  = (Ok a, tr') ->
  shape (valid_rain a) = [count] ->
  get_gpm_data env f toplat bottomlat leftlon rightlon t "bin" tr
  = if (N.of_nat count <? 2 ^ 32)%N
    then match pack_f env (max_val a) with
         | Ok m =>
             (Ok (BinaryResponse
                    (le_uint32 (N.of_nat count) ++ float32_bytes m
                     ++ tobytes (valid_lats a) ++ tobytes (valid_lons a)
                     ++ tobytes (valid_rain a))), tr')
         | Raise e => (Ok (ErrorResponse e), tr')
         end
    else (Ok (ErrorResponse ProcessingFailure), tr').
Proof.
  intros Hx Hs. unfold get_gpm_data, try_except, bind. rewrite Hx.
  unfold lift, np_len. rewrite Hs. cbn [String.eqb Ascii.eqb Bool.eqb].
  unfold struct_pack_If, ret.
  destruct (N.of_nat count <? 2 ^ 32)%N; trivial.
  destruct (pack_f env (max_val a)); simpl; trivial.
Qed.

(** C4. When [_extract_cloud_arrays] returns a point set of [count] points
    whose [count] fits the unsigned 32-bit integer of the header and whose
    maximum fits its 32-bit float, the route with format "bin" answers with
    a payload of exactly 8 + 12 * count bytes: the count as four
    little-endian bytes, the four bytes of the 32-bit grid maximum, then
    the latitudes, the longitudes and the values, four bytes each and
    nothing in between.  A client that reads the count from the header and
    then that many latitudes, longitudes and values gets the point set back
    and has no byte left. *)
Theorem binary_payload_layout (env : Env) (f : string)
                              (toplat bottomlat leftlon rightlon t : Qc)
                              (tr tr' : trace) (a : CloudArrays)
                              (count : nat) :
  _extract_cloud_arrays env f (mk_Bounds toplat bottomlat leftlon rightlon)
                        t tr
  = (Ok a, tr') ->
  point_set a count ->
  (N.of_nat count < 2 ^ 32)%N ->
  fits_float32 env (max_val a) ->
  exists content,
    get_gpm_data env f toplat bottomlat leftlon rightlon t "bin" tr
    = (Ok (BinaryResponse content), tr')
    /\ content
       = le_uint32 (N.of_nat count)
         ++ float32_bytes (cast32 (to_float32 env) (max_val a))
         ++ flat_map float32_bytes (flat (valid_lats a))
         ++ flat_map float32_bytes (flat (valid_lons a))
         ++ flat_map float32_bytes (flat (valid_rain a))
    /\ length content = 8 + 12 * count
    /\ N_of_le (firstn 4 content) = N.of_nat count
    /\ firstn 4 (skipn 4 content)
       = float32_bytes (cast32 (to_float32 env) (max_val a))
    /\ length (skipn 8 content) = 12 * count
    /\ decode_bin content
       = Some (mk_Decoded count (cast32 (to_float32 env) (max_val a))
                          (flat (valid_lats a)) (flat (valid_lons a))
                          (flat (valid_rain a)) []).
Proof.
  intros Hx (Hs & Hla & Hlo & Hv) Hc Hm.
  exists (payload env a count).
  rewrite (get_gpm_data_bin env f toplat bottomlat leftlon rightlon t tr tr'
             a count Hx Hs).
  apply N.ltb_lt in Hc. rewrite Hc. apply N.ltb_lt in Hc.
  rewrite (pack_f_fits env (max_val a) Hm).
  split; [ reflexivity | ]. split; [ reflexivity | ].
  unfold payload, tobytes.
  set (body := flat_map float32_bytes (flat (valid_lats a))
               ++ flat_map float32_bytes (flat (valid_lons a))
               ++ flat_map float32_bytes (flat (valid_rain a))).
  assert (Hbody : length body = 12 * count).
  { unfold body. rewrite !length_app.
    rewrite !(length_flat_map_uniform float32_bytes 4)
      by (intros; reflexivity).
    lia. }
  assert (Hcount : N_of_le (le_uint32 (N.of_nat count)) = N.of_nat count)
    by now apply N_of_le_uint32.
  destruct (cast32 (to_float32 env) (max_val a)) as [m0 m1 m2 m3].
  unfold le_uint32 in *. cbn [app float32_bytes byte0 byte1 byte2 byte3].
  split; [ | split; [ | split; [ | split ] ] ].
  - cbn [length]. rewrite Hbody. lia.
  - cbn [firstn]. exact Hcount.
  - reflexivity.
  - cbn [skipn]. exact Hbody.
  - unfold decode_bin. rewrite Hcount, Nat2N.id.
    unfold body.
    rewrite <- Hla at 1. rewrite read_floats_tobytes.
    rewrite <- Hlo at 1. rewrite read_floats_tobytes.
    rewrite <- Hv at 1.
    rewrite <- (app_nil_r (flat_map float32_bytes (flat (valid_rain a)))).
    rewrite read_floats_tobytes. reflexivity.
Qed.

(** A count beyond 32 bits cannot be packed: the route answers with the
    error of [struct.pack]. *)
Lemma get_gpm_data_bin_overflow (env : Env) (f : string)
                                (toplat bottomlat leftlon rightlon t : Qc)
                                (tr tr' : trace) (a : CloudArrays)
                                (count : nat) :
  _extract_cloud_arrays env f (mk_Bounds toplat bottomlat leftlon rightlon)
                        t tr
  = (Ok a, tr') ->
  shape (valid_rain a) = [count] ->
  (2 ^ 32 <= N.of_nat count)%N ->
  get_gpm_data env f toplat bottomlat leftlon rightlon t "bin" tr
  = (Ok (ErrorResponse ProcessingFailure), tr').
Proof.
  intros Hx Hs Hc.
  rewrite (get_gpm_data_bin env f toplat bottomlat leftlon rightlon t tr tr'
             a count Hx Hs).
  apply N.ltb_ge in Hc. now rewrite Hc.
Qed.

(** Neither can a maximum beyond the range of a 32-bit float: the route
    answers with the error of [struct.pack] and sends no payload. *)
Lemma get_gpm_data_bin_max_overflow (env : Env) (f : string)
                                    (toplat bottomlat leftlon rightlon t : Qc)
                                    (tr tr' : trace) (a : CloudArrays)
                                    (count : nat) :
  _extract_cloud_arrays env f (mk_Bounds toplat bottomlat leftlon rightlon)
                        t tr
  = (Ok a, tr') ->
  shape (valid_rain a) = [count] ->
  ~ fits_float32 env (max_val a) ->
  get_gpm_data env f toplat bottomlat leftlon rightlon t "bin" tr
  = (Ok (ErrorResponse ProcessingFailure), tr').
Proof.
  intros Hx Hs Hm.
  rewrite (get_gpm_data_bin env f toplat bottomlat leftlon rightlon t tr tr'
             a count Hx Hs).
  rewrite (pack_f_overflow env (max_val a) Hm).
  now destruct (N.of_nat count <? 2 ^ 32)%N.
Qed.

(** On a cropped grid the filter returns a point set. *)
Lemma sparse_filter_point_set (env : Env) (lats lons data : ndarray np_float)
                              (La Lo : nat) (t : Qc) (r : CloudArrays) :
  cropped_grid lats lons data La Lo ->
  sparse_filter env lats lons data t = Ok r ->
  point_set r (count_above (passes env t) (flat data)).
Proof.
  intros H Hr. rewrite (sparse_filter_run env lats lons data La Lo t H) in Hr.
  injection Hr as <-.
  destruct H as (_ & _ & _ & _ & _ & HG).
  unfold point_set. simpl. rewrite !length_map.
  rewrite <- HG, length_above. repeat split.
Qed.

(** The two points of the 2 x 2 example: 8 + 12 * 2 bytes, starting with
    the count 2 and the maximum 5.0 (00 00 A0 40). *)
Lemma binary_payload_layout_witness :
  match fst (get_gpm_data Reference.env0 "small.nc"
                          (num 90) (num (-90)) (num (-180)) (num 180)
                          (frac 1 10) "bin" []) with
  | Ok (BinaryResponse content) =>
      length content = 32
      /\ firstn 8 content = [x02; x00; x00; x00; x00; x00; xa0; x40]
  | _ => False
  end.
Proof.
  destruct (_extract_cloud_arrays Reference.env0 "small.nc"
              (mk_Bounds (num 90) (num (-90)) (num (-180)) (num 180))
              (frac 1 10) [])
    as [[a | e] tr'] eqn:E.
  - pose proof E as E'. vm_compute in E'. injection E' as <- _.
    destruct (binary_payload_layout Reference.env0 "small.nc"
                (num 90) (num (-90)) (num (-180)) (num 180) (frac 1 10)
                [] tr' _ 2 E)
      as (content & Hc & Hcontent & Hlen & _).
    + repeat split.
    + reflexivity.
    + reflexivity.
    + rewrite Hc. simpl. split; [ exact Hlen | ].
      rewrite Hcontent. reflexivity.
  - vm_compute in E. discriminate E.
Defined.

(** A field of double precision whose maximum, 10^39, is beyond the range
    of a 32-bit float: the points are found, the header cannot be packed,
    and the route answers with an error. *)
Example payload_max_out_of_range :
  option_map (fun a => (shape (valid_rain a), max_val a))
    (value (fst (_extract_cloud_arrays Reference.env_huge "huge.nc"
                   Reference.world (frac 1 10) [])))
  = Some ([1], Num Double (num (10 ^ 39)))
  /\ fst (get_gpm_data Reference.env_huge "huge.nc"
                       (num 90) (num (-90)) (num (-180)) (num 180)
                       (frac 1 10) "bin" [])
     = Ok (ErrorResponse ProcessingFailure).
Proof. split; vm_compute; reflexivity. Qed.

(* ================================================================= *)
(** ** X1, X2: the trace and the outcome of a request *)

Lemma run_with_well_traced {A} (env : Env) (f : string) (tr : trace)
                           (body : Dataset -> string -> result A) :
  well_traced env f tr (run_with env f tr body).
Proof.
  unfold well_traced, run_with, trace_after, opening_of.
  destruct (path_exists env (path_of env f)).
  2: { simpl. split; [ trivial | intro h; lia ]. }
  rewrite open_with_fallback_run.
  destruct (open_dataset env (path_of env f) (Some "Grid")) as [d | ];
    [ | destruct (open_dataset env (path_of env f) None) as [d | ] ].
  1, 2: unfold finish; simpl;
        destruct (resolve_var d) as [v | ]; [ destruct (body d v) | ]; simpl.
  all: simpl; split; [ now rewrite <- ?app_assoc, ?app_nil_r | ].
  all: intro h; rewrite <- ?app_assoc, ?released_app; unfold released; simpl.
  all: rewrite ?(Nat.eqb_sym (fresh tr) h); destruct (h =? fresh tr); simpl.
  all: reflexivity.
Qed.

(** X1. Each entry point leaves the trace of its outcome.  Nothing is
    recorded when the path does not exist.  Otherwise the grouped layout is
    tried first and the flat layout only after the grouped one failed, so
    at most two opens happen; the handle is closed as the last event when
    the request returns, and it is the only close.  Counted per handle: a
    request that returns releases the handle it opened exactly once and no
    other; a request that raises releases none. *)
Theorem request_trace (env : Env) (f : string) (B : Bounds) (t : Qc)
                      (tr : trace) :
  well_traced env f tr (_extract_cloud_arrays env f B t tr)
  /\ well_traced env f tr (process_local_file env f B tr)
  /\ well_traced env f tr (get_sparse_cloud_data env f B t tr).
Proof.
  rewrite extract_cloud_arrays_run, process_local_file_run,
    get_sparse_cloud_data_run.
  repeat split; apply run_with_well_traced.
Qed.

Ltac classify :=
  repeat split; intros;
  repeat match goal with
         | H : _ /\ _ |- _ => destruct H
         | H : exists _, _ |- _ => destruct H
         | H : Some _ = Some _ |- _ => injection H as H; subst
         | H : Ok _ = Ok _ |- _ => injection H as H; subst
         end;
  try congruence; eauto 8.

Lemma run_with_classified {A} (env : Env) (f : string) (tr : trace)
                          (body : Dataset -> string -> result A) :
  (forall d v, raises_only ProcessingFailure (body d v)) ->
  classified env f body (fst (run_with env f tr body)).
Proof.
  intro Hbody. unfold classified, run_with, opened.
  destruct (path_exists env (path_of env f)); simpl; [ | classify ].
  rewrite open_with_fallback_run.
  destruct (open_dataset env (path_of env f) (Some "Grid")) as [d | ] eqn:Eg;
    [ | destruct (open_dataset env (path_of env f) None) as [d | ] eqn:Ef ].
  3: { simpl. classify. }
  1, 2: unfold finish; simpl;
        destruct (resolve_var d) as [v | ] eqn:Ev;
        [ destruct (body d v) as [a | e] eqn:Eb;
          [ | apply Hbody in Eb as Ee; subst e ]
        | ]; simpl; classify.
Qed.

(** X2. The outcome of each entry point is decided stage by stage and does
    not depend on the trace it starts from.  It is [NotFound] exactly when
    the path does not exist; [VariableNotFound] exactly when the path
    exists, a layout opens (the grouped one when both do) and the dataset
    has none of the candidate fields; [ProcessingFailure] exactly when
    stages 3 to 5 raise on the opened dataset and its resolved field; and a
    value exactly when stages 3 to 5 return it. *)
Theorem request_outcome (env : Env) (f : string) (B : Bounds) (t : Qc)
                        (tr : trace) :
  classified env f (fun d v => cloud_arrays_of env d v B t)
             (fst (_extract_cloud_arrays env f B t tr))
  /\ classified env f (fun d v => grid_of env d v B)
                (fst (process_local_file env f B tr))
  /\ classified env f (fun d v => sparse_json_of env d v B t)
                (fst (get_sparse_cloud_data env f B t tr))
  /\ (forall tr',
        fst (_extract_cloud_arrays env f B t tr')
        = fst (_extract_cloud_arrays env f B t tr)
        /\ fst (process_local_file env f B tr')
           = fst (process_local_file env f B tr)
        /\ fst (get_sparse_cloud_data env f B t tr')
           = fst (get_sparse_cloud_data env f B t tr)).
Proof.
  assert (I : forall A (body : Dataset -> string -> result A) tr1 tr2,
             fst (run_with env f tr1 body) = fst (run_with env f tr2 body)).
  { intros A body tr1 tr2. unfold run_with.
    destruct (path_exists env (path_of env f)); trivial.
    rewrite !open_with_fallback_run.
    destruct (open_dataset env (path_of env f) (Some "Grid")) as [d | ];
      [ | destruct (open_dataset env (path_of env f) None) as [d | ] ];
      trivial.
    all: unfold finish; simpl; destruct (resolve_var d); trivial.
    all: destruct (body d s); trivial. }
  split; [ | split; [ | split ] ].
  - rewrite extract_cloud_arrays_run. apply run_with_classified.
    intros. apply cloud_arrays_of_raises.
  - rewrite process_local_file_run. apply run_with_classified.
    intros. apply grid_of_raises.
  - rewrite get_sparse_cloud_data_run. apply run_with_classified.
    intros. apply sparse_json_of_raises.
  - intro tr'.
    rewrite !extract_cloud_arrays_run, !process_local_file_run,
      !get_sparse_cloud_data_run.
    repeat split; apply I.
Qed.

(* ================================================================= *)
(** ** X3: the cropped field is never empty *)

(** X3. In [_extract_cloud_arrays] and [process_local_file], when the field
    of the full dataset has at least one element, so has the field of the
    cropped dataset, whatever the selection did; and the cropped dataset is
    either the full dataset or the selection itself. *)
Theorem crop_keeps_field (env : Env) (ds : Dataset) (v la lo : string)
                         (B : Bounds) (a0 : ndarray np_float) :
  getitem ds v = Ok a0 ->
  size a0 <> 0 ->
  (exists a, getitem (crop env ds v la lo B) v = Ok a /\ size a <> 0)
  /\ (crop env ds v la lo B = ds
      \/ sel env ds (indexers la lo B) = Some (crop env ds v la lo B)).
Proof.
  intros Hget Hsize. unfold crop.
  destruct (sel env ds (indexers la lo B)) as [c | ]; [ | eauto ].
  destruct (getitem c v) as [a | e] eqn:Ec; [ | eauto ].
  destruct (size a =? 0) eqn:Ez; [ eauto | ].
  apply Nat.eqb_neq in Ez. eauto.
Qed.

(** The IMERG example: a box inside the coordinates keeps the selection
    (one latitude, two longitudes), a box outside them keeps the file. *)
Lemma crop_keeps_field_witness :
  (exists a,
      getitem (crop Reference.env0 Reference.imerg_grid "precipitation"
                    "lat" "lon" Reference.far_away)
              "precipitation"
      = Ok a
      /\ size a <> 0)
  /\ crop Reference.env0 Reference.imerg_grid "precipitation" "lat" "lon"
          Reference.far_away
     = Reference.imerg_grid
  /\ size (mk_ndarray [1; 2; 1] (singles [num 6; num 7])) = 2
  /\ getitem (crop Reference.env0 Reference.imerg_grid "precipitation"
                   "lat" "lon"
                   (mk_Bounds (num 1) (num 1) (num 15) (num 40)))
             "precipitation"
     = Ok (mk_ndarray [1; 2; 1] (singles [num 6; num 7])).
Proof.
  split; [ | repeat split ].
  apply (crop_keeps_field Reference.env0 Reference.imerg_grid "precipitation"
           "lat" "lon" Reference.far_away
           (mk_ndarray [1; 3; 2]
              (singles [num 1; num 5; num 2; num 6; num 3; num 7]))).
  - reflexivity.
  - discriminate.
Defined.

(* ================================================================= *)
(** ** X4, X5: from the cropped dataset to the grid *)

Lemma prod_shape_squeeze (s : list nat) :
  prod_shape (filter (fun n => negb (n =? 1)) s) = prod_shape s.
Proof.
  induction s as [ | n s IH]; simpl; trivial.
  destruct (n =? 1) eqn:E; simpl.
  - apply Nat.eqb_eq in E. subst n. lia.
  - now rewrite IH.
Qed.

Lemma length_squeeze (a : ndarray np_float) :
  wf a -> length (flat (squeeze a)) = prod_shape (shape (squeeze a)).
Proof.
  unfold wf, size, squeeze. simpl. intro H. now rewrite prod_shape_squeeze.
Qed.

(** X4. Stage 4 hands stage 5 a cropped grid.  When the field of the
    cropped dataset is well formed and, without its axes of length one, is
    shaped (lonCount, latCount) or (latCount, lonCount), and the two
    coordinates are one-dimensional of those lengths, [extract_arrays]
    returns the coordinates with a value array shaped
    (latCount, lonCount) of latCount * lonCount cells.  From the layout
    (lonCount, latCount) each cell (i, j) of the result is cell (j, i) of the
    field; from any other layout the cells are those of the field, in the
    same order. *)
Theorem extract_arrays_cropped_grid (ds : Dataset) (v la lo : string)
                                    (a lats lons : ndarray np_float)
                                    (La Lo : nat) :
  getitem ds v = Ok a ->
  wf a ->
  shape (squeeze a) = [Lo; La] \/ shape (squeeze a) = [La; Lo] ->
  getitem ds la = Ok lats ->
  shape lats = [La] ->
  length (flat lats) = La ->
  getitem ds lo = Ok lons ->
  shape lons = [Lo] ->
  length (flat lons) = Lo ->
  exists data,
    extract_arrays ds v la lo = Ok (lats, lons, data)
    /\ cropped_grid lats lons data La Lo
    /\ (shape (squeeze a) = [Lo; La] ->
        forall i j, i < La -> j < Lo ->
          cell Lo (flat data) i j = cell La (flat a) j i)
    /\ (shape (squeeze a) <> [Lo; La] -> flat data = flat a).
Proof.
  intros Hv Hwf Hshape Hla Hsla Hfla Hlo Hslo Hflo.
  unfold extract_arrays, np_len. rewrite Hv, Hla, Hlo. simpl.
  rewrite Hsla, Hslo. simpl.
  pose proof (length_squeeze a Hwf) as Hlen.
  exists (orient (squeeze a) Lo La). split; [ reflexivity | ].
  unfold cropped_grid, orient.
  destruct (shape_eqb (shape (squeeze a)) [Lo; La]) eqn:Eb.
  - apply shape_eqb_eq in Eb. unfold T. rewrite Eb in Hlen |- *.
    simpl in Hlen. change (flat (squeeze a)) with (flat a) in *.
    assert (Hl : length (flat a) = Lo * La) by lia.
    cbn [shape flat]. rewrite (length_transpose_flat Lo La (flat a) Hl).
    split; [ repeat split; trivial; lia | ]. split.
    + intros _ i j Hi Hj. now apply cell_transpose_flat.
    + intro NE. contradiction.
  - assert (NE : shape (squeeze a) <> [Lo; La]).
    { intro E. apply shape_eqb_eq in E. congruence. }
    destruct Hshape as [E | E]; [ contradiction | ].
    rewrite E in Hlen. simpl in Hlen.
    change (flat (squeeze a)) with (flat a) in *.
    split; [ repeat split; trivial; lia | ]. split.
    + intro. contradiction.
    + reflexivity.
Qed.

(** The IMERG example: a field on (time, lon, lat) shaped (1, 3, 2). *)
Lemma extract_arrays_cropped_grid_witness :
  exists data,
    extract_arrays Reference.imerg_grid "precipitation" "lat" "lon"
    = Ok (mk_ndarray [2] (singles [num 0; num 1]),
          mk_ndarray [3] (singles [num 10; num 20; num 30]), data)
    /\ cropped_grid (mk_ndarray [2] (singles [num 0; num 1]))
                    (mk_ndarray [3] (singles [num 10; num 20; num 30]))
                    data 2 3.
Proof.
  destruct (extract_arrays_cropped_grid Reference.imerg_grid
              "precipitation" "lat" "lon"
              (mk_ndarray [1; 3; 2]
                 (singles [num 1; num 5; num 2; num 6; num 3; num 7]))
              (mk_ndarray [2] (singles [num 0; num 1]))
              (mk_ndarray [3] (singles [num 10; num 20; num 30])) 2 3)
    as (data & He & Hg & _); try reflexivity.
  - left. reflexivity.
  - exists data. split; assumption.
Defined.

(** X5. A field that is not two-dimensional once its axes of length one
    are removed (a crop to a single latitude or a single longitude, for
    one) makes the sparse paths fail: stages 4 and 5 of
    [_extract_cloud_arrays] and of [get_sparse_cloud_data] raise
    [ProcessingFailure], because the indices of [np.where] cannot be
    unpacked into rows and columns.  Stage 4 alone, which is all that
    [process_local_file] runs, does not fail for that reason: it returns
    the values as they are, without transposing them. *)
Theorem field_not_2d (env : Env) (ds : Dataset) (v la lo : string)
                     (t : Qc) (a : ndarray np_float) :
  getitem ds v = Ok a ->
  length (shape (squeeze a)) <> 2 ->
  rbind (extract_arrays ds v la lo)
        (fun g => let '(lats, lons, data) := g in
                  sparse_filter env lats lons data t)
  = Raise ProcessingFailure
  /\ rbind (extract_arrays ds v la lo)
           (fun g => let '(lats, lons, data) := g in
                     sparse_json env lats lons data t)
     = Raise ProcessingFailure
  /\ forall lats lons data,
       extract_arrays ds v la lo = Ok (lats, lons, data) ->
       data = squeeze a.
Proof.
  intros Hv Hdim.
  assert (Ho : forall n m, orient (squeeze a) n m = squeeze a).
  { intros n m. unfold orient.
    destruct (shape_eqb (shape (squeeze a)) [n; m]) eqn:E; trivial.
    apply shape_eqb_eq in E. rewrite E in Hdim. simpl in Hdim. lia. }
  assert (Hw : forall t', np_where2 (np_gt (to_float32 env) (squeeze a) t')
                          = Raise ProcessingFailure).
  { intro t'. unfold np_where2, np_gt. simpl shape.
    destruct (filter _ (shape a)) as [ | r [ | c [ | x s]]] eqn:E;
      trivial.
    unfold squeeze in Hdim. simpl in Hdim. rewrite E in Hdim.
    simpl in Hdim. lia. }
  unfold extract_arrays. rewrite Hv. simpl.
  destruct (getitem ds la) as [lats | e] eqn:Ela; simpl.
  2: { apply getitem_raises in Ela. subst e. repeat split. discriminate. }
  destruct (getitem ds lo) as [lons | e] eqn:Elo; simpl.
  2: { apply getitem_raises in Elo. subst e. repeat split. discriminate. }
  destruct (np_len lons) as [n | e] eqn:En; simpl.
  2: { apply np_len_raises in En. subst e. repeat split. discriminate. }
  destruct (np_len lats) as [m | e] eqn:Em; simpl.
  2: { apply np_len_raises in Em. subst e. repeat split. discriminate. }
  rewrite Ho. unfold sparse_filter, sparse_json. rewrite Hw. simpl.
  repeat split. intros ? ? ? H. now injection H.
Qed.

(** A box with a single latitude: the field of the IMERG example becomes
    the one-dimensional [6, 7]; the dense path returns it, the sparse path
    fails. *)
Lemma field_not_2d_witness :
  fst (process_local_file Reference.env0 "imerg.HDF5"
         (mk_Bounds (num 1) (num 1) (num 15) (num 40)) [])
  = Ok (mk_ndarray [1] (singles [num 1]),
        mk_ndarray [2] (singles [num 20; num 30]),
        mk_ndarray [2] (singles [num 6; num 7]))
  /\ fst (_extract_cloud_arrays Reference.env0 "imerg.HDF5"
            (mk_Bounds (num 1) (num 1) (num 15) (num 40)) (frac 1 10) [])
     = Raise ProcessingFailure
  /\ rbind (extract_arrays
              (crop Reference.env0 Reference.imerg_grid "precipitation"
                    "lat" "lon"
                    (mk_Bounds (num 1) (num 1) (num 15) (num 40)))
              "precipitation" "lat" "lon")
           (fun g => let '(lats, lons, data) := g in
                     sparse_filter Reference.env0 lats lons data (frac 1 10))
     = Raise ProcessingFailure.
Proof.
  split; [ reflexivity | ]. split; [ reflexivity | ].
  apply (field_not_2d Reference.env0 _ "precipitation" "lat" "lon"
           (frac 1 10) (mk_ndarray [1; 2; 1] (singles [num 6; num 7]))).
  - reflexivity.
  - discriminate.
Defined.

(* ================================================================= *)
(** ** X6: the statistics of [get_sparse_cloud_data] *)

Section Gather.

Variables (env : Env) (lats lons data : ndarray np_float) (La Lo : nat).
Variable t : Qc.
Hypothesis grid : cropped_grid lats lons data La Lo.

Let ks := above (passes env t) (flat data) (La * Lo).

Lemma where_run :
  np_where2 (np_gt (to_float32 env) data t)
  = Ok (map (fun k => k / Lo) ks, map (fun k => k mod Lo) ks).
Proof.
  destruct grid as (_ & _ & _ & _ & Hs & Hl).
  unfold np_where2, np_gt. cbn [shape flat]. rewrite Hs.
  assert (Em : filter (fun k => nth k (map (fun v =>
                                  cell_gt (to_float32 env) v t) (flat data))
                                    false)
                      (seq 0 (La * Lo))
               = ks)
    by (unfold ks; rewrite <- Hl; apply (mask_positions (passes env t))).
  now rewrite Em.
Qed.

Lemma index2_run :
  index2 data (map (fun k => k / Lo) ks) (map (fun k => k mod Lo) ks)
  = Ok (mk_ndarray [length ks] (map (fun k => nth k (flat data) NaN) ks)).
Proof.
  destruct grid as (_ & _ & _ & _ & Hs & Hl).
  unfold index2. rewrite Hs, combine_map_same, rmap_map.
  rewrite (rmap_Ok _ (fun k => nth k (flat data) NaN)).
  - simpl. now rewrite length_map.
  - intros k Hk. apply above_lt in Hk.
    destruct (row_col_bounds La Lo k Hk) as (Hy & Hx & E).
    apply Nat.ltb_lt in Hy, Hx. rewrite Hy, Hx. simpl.
    unfold cell. rewrite E.
    now rewrite (nth_error_nth' (flat data) NaN) by lia.
Qed.

Lemma index1_lats_run :
  index1 lats (map (fun k => k / Lo) ks)
  = Ok (mk_ndarray [length ks]
          (map (fun k => nth (k / Lo) (flat lats) NaN) ks)).
Proof.
  destruct grid as (Hs & Hl & _).
  unfold index1. rewrite Hs, rmap_map.
  rewrite (rmap_Ok _ (fun k => [nth (k / Lo) (flat lats) NaN])).
  - simpl. now rewrite concat_map_singleton, length_map.
  - intros k Hk. apply above_lt in Hk.
    destruct (row_col_bounds La Lo k Hk) as (Hy & Hx & E).
    pose proof Hy as Hy'. apply Nat.ltb_lt in Hy'. rewrite Hy'.
    f_equal. apply (firstn_1_skipn NaN). lia.
Qed.

Lemma index1_lons_run :
  index1 lons (map (fun k => k mod Lo) ks)
  = Ok (mk_ndarray [length ks]
          (map (fun k => nth (k mod Lo) (flat lons) NaN) ks)).
Proof.
  destruct grid as (_ & _ & Hs & Hl & _).
  unfold index1. rewrite Hs, rmap_map.
  rewrite (rmap_Ok _ (fun k => [nth (k mod Lo) (flat lons) NaN])).
  - simpl. now rewrite concat_map_singleton, length_map.
  - intros k Hk. apply above_lt in Hk.
    destruct (row_col_bounds La Lo k Hk) as (Hy & Hx & E).
    pose proof Hx as Hx'. apply Nat.ltb_lt in Hx'. rewrite Hx'.
    f_equal. apply (firstn_1_skipn NaN). lia.
Qed.

Lemma above_values :
  map (fun k => nth k (flat data) NaN) ks
  = filter (passes env t) (flat data).
Proof.
  destruct grid as (_ & _ & _ & _ & _ & Hl).
  unfold ks, above. rewrite <- Hl.
  apply (filter_positions (passes env t)).
Qed.

Lemma length_ks : length ks = count_above (passes env t) (flat data).
Proof.
  destruct grid as (_ & _ & _ & _ & _ & Hl).
  unfold ks. rewrite <- Hl. apply length_above.
Qed.

End Gather.

(** X6. On a cropped grid that has a cell, the filter of
    [get_sparse_cloud_data] returns; [stats.count] is the number of cells
    that pass the threshold test (a number strictly greater than the
    threshold as rounded to the precision of the cell; never NaN);
    [stats.max] is what [np.max] gives on the whole grid (the maximum of
    its numbers, or NaN as soon as one cell is NaN), whatever the
    threshold and also when no cell passes it (there is no guard on the
    count here); [vals] are the cells that pass in row-major order, each
    rounded to two decimals; and the three sequences are one-dimensional of
    length [stats.count].  On a grid without cells the same filter raises,
    at [np.max]. *)
Theorem sparse_json_stats (env : Env) (lats lons data : ndarray np_float)
                          (La Lo : nat) (t : Qc) :
  cropped_grid lats lons data La Lo ->
  (flat data <> [] ->
   exists r,
     sparse_json env lats lons data t = Ok r
     /\ sj_count r = count_above (passes env t) (flat data)
     /\ is_np_max (sj_max r) (flat data)
     /\ flat (sj_vals r)
        = map (cell_map (round_num env 2))
              (filter (passes env t) (flat data))
     /\ shape (sj_lats r) = [sj_count r]
     /\ shape (sj_lons r) = [sj_count r]
     /\ shape (sj_vals r) = [sj_count r]
     /\ length (flat (sj_lats r)) = sj_count r
     /\ length (flat (sj_lons r)) = sj_count r)
  /\ (flat data = [] ->
      sparse_json env lats lons data t = Raise ProcessingFailure).
Proof.
  intro H. unfold sparse_json.
  rewrite (where_run env lats lons data La Lo t H). cbn [rbind].
  rewrite (index2_run env lats lons data La Lo t H). cbn [rbind].
  rewrite (index1_lats_run env lats lons data La Lo t H). cbn [rbind].
  rewrite (index1_lons_run env lats lons data La Lo t H). cbn [rbind].
  unfold np_max, np_len, astype. cbn [shape flat].
  pose proof (length_ks env lats lons data La Lo t H) as Hc.
  pose proof (above_values env lats lons data La Lo t H) as Hv.
  split.
  - intro Hne. pose proof (grid_max_is_np_max (flat data) Hne) as Hmax.
    destruct (flat data) as [ | x xs] eqn:E; [ congruence | ].
    cbn [rbind]. eexists. split; [ reflexivity | ].
    cbn [sj_count sj_max sj_vals sj_lats sj_lons shape flat].
    rewrite !length_map, Hc, Hv.
    repeat (split; [ trivial | ]). trivial.
  - intros ->. reflexivity.
Qed.

(** Threshold 10 on [[0.0, 0.5], [0.0625, 5.0]]: nothing passes and the
    maximum reported is still 5.0. *)
Lemma sparse_json_stats_witness :
  exists r,
    sparse_json Reference.env0
      (mk_ndarray [2] (singles [num 10; num 20]))
      (mk_ndarray [2] (singles [num 30; num 40]))
      (mk_ndarray [2; 2] (singles [num 0; frac 1 2; frac 1 16; num 5]))
      (num 10)
    = Ok r
    /\ sj_count r = 0
    /\ sj_max r = Num Double (num 5).
Proof.
  destruct (sparse_json_stats Reference.env0
              (mk_ndarray [2] (singles [num 10; num 20]))
              (mk_ndarray [2] (singles [num 30; num 40]))
              (mk_ndarray [2; 2] (singles [num 0; frac 1 2; frac 1 16; num 5]))
              2 2 (num 10))
    as [K _].
  - repeat split.
  - destruct K as (r & Hr & Hc & Hm & _); [ discriminate | ].
    exists r. split; [ exact Hr | ]. split; [ exact Hc | ].
    destruct Hm as [[Hn _] | (_ & m & -> & M)].
    + simpl in Hn. repeat (destruct Hn as [Hn | Hn]; [ discriminate Hn | ]).
      destruct Hn.
    + f_equal. apply (is_max_unique _ _ _ M). split.
      * simpl. tauto.
      * repeat constructor; discriminate.
Defined.

(* ================================================================= *)
(** ** X7, X8: the threshold *)

Lemma filter_nil_iff {A} (p : A -> bool) (l : list A) :
  filter p l = [] <-> forall x, In x l -> p x = false.
Proof.
  split.
  - intros H x Hx. destruct (p x) eqn:E; trivial.
    assert (Hin : In x (filter p l)) by (apply filter_In; auto).
    rewrite H in Hin. destruct Hin.
  - induction l as [ | a l IH]; intro H; simpl; trivial.
    rewrite (H a) by now left. apply IH. intros x Hx. apply H. now right.
Qed.

Lemma in_numbers (G : list np_float) (q : Qc) :
  In q (numbers G) <-> exists p, In (Num p q) G.
Proof.
  unfold numbers. rewrite in_flat_map. split.
  - intros (c & Hc & Hq). destruct c as [p q' | ]; [ | destruct Hq ].
    destruct Hq as [<- | []]. now exists p.
  - intros (p & Hp). exists (Num p q). split; [ exact Hp | now left ].
Qed.

Lemma has_precision_finite (p : precision) (G : list np_float) :
  Forall (has_precision p) G -> finite G.
Proof.
  unfold finite. apply Forall_impl. intros c H ->. exact H.
Qed.

(** On a grid of one precision, no cell passes exactly when the maximum
    does not. *)
Lemma count_above_zero_iff (env : Env) (t : Qc) (p : precision)
                           (G : list np_float) (m : Qc) :
  Forall (has_precision p) G ->
  is_max m (numbers G) ->
  count_above (passes env t) G = 0
  <-> (m <= as_precision (to_float32 env) p t)%Qc.
Proof.
  intros Hp [Hin Hall].
  rewrite Forall_forall in Hp, Hall. unfold count_above.
  rewrite length_zero_iff_nil, filter_nil_iff. split.
  - intro H. apply in_numbers in Hin. destruct Hin as [p' Hin].
    pose proof (Hp _ Hin) as E. simpl in E. subst p'.
    apply gtb_le. exact (H _ Hin).
  - intros H c Hc. pose proof (Hp _ Hc) as E.
    destruct c as [p' q | ]; [ | reflexivity ].
    simpl in E. subst p'. apply gtb_le.
    apply Qcle_trans with m; trivial.
    apply Hall. apply in_numbers. now exists p.
Qed.

(** X7. On a cropped grid of one precision without NaN, whose greatest
    number is m, the sparse filter returns no point exactly when m is at
    most the threshold as rounded to that precision (to binary32 on a grid
    of single precision).  Below m, [max_val] is m; from m on, [max_val] is
    0.0. *)
Theorem empty_iff_threshold_at_least_max (env : Env)
                                         (lats lons data : ndarray np_float)
                                         (La Lo : nat) (t : Qc)
                                         (p : precision) (m : Qc) :
  cropped_grid lats lons data La Lo ->
  Forall (has_precision p) (flat data) ->
  is_max m (numbers (flat data)) ->
  exists r,
    sparse_filter env lats lons data t = Ok r
    /\ (shape (valid_rain r) = [0]
        <-> (m <= as_precision (to_float32 env) p t)%Qc)
    /\ ((as_precision (to_float32 env) p t < m)%Qc ->
        max_val r = Num Double m)
    /\ ((m <= as_precision (to_float32 env) p t)%Qc ->
        max_val r = Num Double (num 0)).
Proof.
  intros H Hp Hm. rewrite (sparse_filter_run env lats lons data La Lo t H).
  eexists. split; [ reflexivity | ]. cbn [valid_rain max_val shape].
  rewrite (length_ks env lats lons data La Lo t H).
  pose proof (count_above_zero_iff env t p (flat data) m Hp Hm) as Hz.
  split; [ | split ].
  - rewrite <- Hz. split; [ intro E; now injection E | now intros -> ].
  - intro Hlt.
    destruct (0 <? count_above (passes env t) (flat data)) eqn:E.
    + assert (Hne : flat data <> []).
      { intro E0. rewrite E0 in Hm. destruct Hm as [[] _]. }
      destruct (grid_max_is_np_max (flat data) Hne)
        as [[Hn _] | (_ & m' & -> & Hm')].
      * apply has_precision_finite in Hp.
        now apply finite_not_nan in Hp.
      * f_equal. exact (is_max_unique _ _ _ Hm' Hm).
    + apply Nat.ltb_ge in E.
      assert (Hc : count_above (passes env t) (flat data) = 0) by lia.
      apply Hz in Hc. now apply Qclt_not_le in Hlt.
  - intro Hle. apply Hz in Hle. now rewrite Hle.
Qed.

(** Cells 0.0, 0.5, 0.0625, 5.0 of single precision: at threshold 5 nothing
    is returned and [max_val] is 0. *)
Lemma empty_iff_threshold_at_least_max_witness :
  exists r,
    sparse_filter Reference.env0
      (mk_ndarray [2] (singles [num 10; num 20]))
      (mk_ndarray [2] (singles [num 30; num 40]))
      (mk_ndarray [2; 2] (singles [num 0; frac 1 2; frac 1 16; num 5]))
      (num 5)
    = Ok r
    /\ shape (valid_rain r) = [0]
    /\ max_val r = Num Double (num 0).
Proof.
  destruct (empty_iff_threshold_at_least_max Reference.env0
              (mk_ndarray [2] (singles [num 10; num 20]))
              (mk_ndarray [2] (singles [num 30; num 40]))
              (mk_ndarray [2; 2] (singles [num 0; frac 1 2; frac 1 16; num 5]))
              2 2 (num 5) Single (num 5))
    as (r & Hr & He & _ & Hz).
  - repeat split.
  - repeat (apply Forall_cons; [ reflexivity | ]). apply Forall_nil.
  - split.
    + simpl. tauto.
    + repeat (apply Forall_cons; [ discriminate | ]). apply Forall_nil.
  - exists r. split; [ exact Hr | ]. split.
    + apply He. vm_compute. discriminate.
    + apply Hz. vm_compute. discriminate.
Defined.

Lemma length_filter_le {A} (p q : A -> bool) (l : list A) :
  (forall x, In x l -> p x = true -> q x = true) ->
  length (filter p l) <= length (filter q l).
Proof.
  induction l as [ | a l IH]; intro H; simpl; trivial.
  assert (IH' : length (filter p l) <= length (filter q l))
    by (apply IH; intros x Hx; apply H; now right).
  destruct (p a) eqn:Ep.
  - rewrite (H a) by (trivial; now left). simpl. lia.
  - destruct (q a); simpl; lia.
Qed.

Lemma gtb_weaken (v t t' : Qc) :
  (t <= t')%Qc -> gtb v t' = true -> gtb v t = true.
Proof.
  intros Hle H. apply gtb_lt in H. apply gtb_lt.
  now apply Qcle_lt_trans with t'.
Qed.

(** A cell that passes the higher of two thresholds passes the lower. *)
Lemma passes_weaken (env : Env) (t t' : Qc) (c : np_float) :
  ordered_thresholds env t t' ->
  passes env t' c = true -> passes env t c = true.
Proof.
  intros [Hle Hle32]. unfold passes, cell_gt, as_precision.
  destruct c as [[ | ] q | ]; trivial; now apply gtb_weaken.
Qed.

(** Scanning with a higher threshold is scanning with the lower one and
    dropping the points that do not pass the higher one. *)
Lemma row_major_scan_refines (env : Env) (lats lons G : list np_float)
                             (La Lo : nat) (t t' : Qc) :
  ordered_thresholds env t t' ->
  row_major_scan (passes env t') lats lons G La Lo
  = filter (fun p => passes env t' (snd p))
           (row_major_scan (passes env t) lats lons G La Lo).
Proof.
  intro Hle. unfold row_major_scan. rewrite filter_flat_map.
  apply flat_map_ext_in. intros i _. rewrite filter_flat_map.
  apply flat_map_ext_in. intros j _.
  destruct (nth_error lats i) as [la | ]; trivial.
  destruct (nth_error lons j) as [lo | ]; trivial.
  destruct (cell Lo G i j) as [v | ]; trivial.
  destruct (passes env t' v) eqn:E'.
  - rewrite (passes_weaken env t t' v Hle E'). simpl. now rewrite E'.
  - destruct (passes env t v); simpl; trivial. now rewrite E'.
Qed.

(** The points of the filter on a cropped grid, in closed form. *)
Lemma sparse_filter_triples (env : Env) (lats lons data : ndarray np_float)
                            (La Lo : nat) (t : Qc) (r : CloudArrays) :
  cropped_grid lats lons data La Lo ->
  sparse_filter env lats lons data t = Ok r ->
  triples r
  = map (cast3 env)
        (row_major_scan (passes env t) (flat lats) (flat lons) (flat data)
                        La Lo)
  /\ length (flat (valid_rain r)) = count_above (passes env t) (flat data).
Proof.
  intros H Hr. rewrite (sparse_filter_run env lats lons data La Lo t H) in Hr.
  injection Hr as <-.
  pose proof (length_ks env lats lons data La Lo t H) as Hc.
  destruct H as (_ & Hla & _ & Hlo & _ & HG).
  unfold triples. cbn [valid_lats valid_lons valid_rain flat].
  rewrite <- (above_scan (passes env t) (flat lats) (flat lons) (flat data)
                La Lo Hla Hlo HG).
  rewrite !combine_map_same, map_map, length_map. split; trivial.
Qed.

(** X8. Raising the threshold only removes points.  On a cropped grid, for
    thresholds t <= t' whose roundings to binary32 are in the same order
    (rounding to nearest keeps the order), the points returned at t' are
    the 32-bit casts of the cells found at t with those that do not pass
    the test at t' dropped, in the same order; so there are no more points
    at t' than at t. *)
Theorem threshold_refines (env : Env) (lats lons data : ndarray np_float)
                          (La Lo : nat) (t t' : Qc) :
  cropped_grid lats lons data La Lo ->
  ordered_thresholds env t t' ->
  exists r r',
    sparse_filter env lats lons data t = Ok r
    /\ sparse_filter env lats lons data t' = Ok r'
    /\ triples r'
       = map (cast3 env)
           (filter (fun p => passes env t' (snd p))
              (row_major_scan (passes env t) (flat lats) (flat lons)
                              (flat data) La Lo))
    /\ length (flat (valid_rain r')) <= length (flat (valid_rain r)).
Proof.
  intros H Hle.
  pose proof (sparse_filter_run env lats lons data La Lo t H) as Hr.
  pose proof (sparse_filter_run env lats lons data La Lo t' H) as Hr'.
  do 2 eexists. split; [ exact Hr | ]. split; [ exact Hr' | ].
  destruct (sparse_filter_triples env lats lons data La Lo t _ H Hr)
    as [_ Hn].
  destruct (sparse_filter_triples env lats lons data La Lo t' _ H Hr')
    as [Ht' Hn'].
  rewrite Ht', Hn, Hn', (row_major_scan_refines env _ _ _ La Lo t t' Hle).
  split; trivial.
  unfold count_above. apply length_filter_le.
  intros v _. now apply passes_weaken.
Qed.

(** Cells 0.0, 0.5, 0.0625, 5.0 of single precision: two points at
    threshold 0.1, of which one is left at threshold 1. *)
Lemma threshold_refines_witness :
  exists r r',
    sparse_filter Reference.env0
      (mk_ndarray [2] (singles [num 10; num 20]))
      (mk_ndarray [2] (singles [num 30; num 40]))
      (mk_ndarray [2; 2] (singles [num 0; frac 1 2; frac 1 16; num 5]))
      (frac 1 10)
    = Ok r
    /\ sparse_filter Reference.env0
         (mk_ndarray [2] (singles [num 10; num 20]))
         (mk_ndarray [2] (singles [num 30; num 40]))
         (mk_ndarray [2; 2] (singles [num 0; frac 1 2; frac 1 16; num 5]))
         (num 1)
       = Ok r'
    /\ triples r'
       = map (cast3 Reference.env0)
           [(Num Single (num 20), Num Single (num 40), Num Single (num 5))].
Proof.
  destruct (threshold_refines Reference.env0
              (mk_ndarray [2] (singles [num 10; num 20]))
              (mk_ndarray [2] (singles [num 30; num 40]))
              (mk_ndarray [2; 2] (singles [num 0; frac 1 2; frac 1 16; num 5]))
              2 2 (frac 1 10) (num 1))
    as (r & r' & Hr & Hr' & Ht & _).
  - repeat split.
  - split; vm_compute; discriminate.
  - exists r, r'. split; [ exact Hr | ]. split; [ exact Hr' | exact Ht ].
Defined.

(* ================================================================= *)
(** ** X9: the path a request reads *)

Lemma prefix_spec (s1 s2 : string) :
  prefix s1 s2 = true <-> exists rest, s2 = (s1 ++ rest)%string.
Proof.
  revert s2. induction s1 as [ | a s1 IH]; intro s2; simpl.
  - split; [ intros _; now exists s2 | now destruct s2 ].
  - destruct s2 as [ | b s2].
    + split; [ discriminate | intros [rest H]; discriminate ].
    + simpl. destruct (ascii_dec a b) as [E | NE].
      * subst b. rewrite IH.
        split; intros [rest H]; exists rest; congruence.
      * split; [ discriminate | intros [rest H]; congruence ].
Qed.

Lemma run_with_same_path {A} (env env' : Env) (f : string) (tr : trace)
                         (body body' : Dataset -> string -> result A) :
  path_of env' f = path_of env f ->
  path_exists env' = path_exists env ->
  open_dataset env' = open_dataset env ->
  (forall d v, body' d v = body d v) ->
  run_with env' f tr body' = run_with env f tr body.
Proof.
  intros Hp He Ho Hb. unfold run_with, open_with_fallback, try_except,
    xr_open_dataset. rewrite Hp, He, Ho.
  destruct (path_exists env (path_of env f)); trivial.
  destruct (open_dataset env (path_of env f) (Some "Grid")) as [d | ];
    [ | destruct (open_dataset env (path_of env f) None) as [d | ] ];
    trivial.
  all: unfold finish; simpl; destruct (resolve_var d); trivial.
  all: now rewrite Hb.
Qed.

(** X9. A filename that starts with "/" is the path read, as it is: the
    data directory plays no part, and each entry point gives the same
    result whatever [DATA_DIR] is configured.  Any other filename is read
    under the data directory, joined to it by one "/" unless the directory
    is empty or already ends with one. *)
Theorem resolved_path (env : Env) (f : string) :
  (forall rest,
      f = ("/" ++ rest)%string ->
      path_of env f = f
      /\ forall d B t tr,
           _extract_cloud_arrays (with_data_dir env d) f B t tr
           = _extract_cloud_arrays env f B t tr
           /\ process_local_file (with_data_dir env d) f B tr
              = process_local_file env f B tr
           /\ get_sparse_cloud_data (with_data_dir env d) f B t tr
              = get_sparse_cloud_data env f B t tr)
  /\ ((forall rest, f <> ("/" ++ rest)%string) ->
      exists sep,
        path_of env f = (DATA_DIR env ++ sep ++ f)%string
        /\ ((sep = "" /\ (DATA_DIR env = ""
                          \/ exists pre, DATA_DIR env = (pre ++ "/")%string))
            \/ (sep = "/" /\ DATA_DIR env <> ""
                /\ forall pre, DATA_DIR env <> (pre ++ "/")%string))).
Proof.
  split.
  - intros rest ->.
    assert (P : forall e, path_of e ("/" ++ rest) = ("/" ++ rest)%string).
    { intro e. unfold path_of, os_path_join.
      now rewrite (proj2 (prefix_spec "/" ("/" ++ rest))) by now exists rest. }
    split; [ apply P | ]. intros d B t tr.
    rewrite !extract_cloud_arrays_run, !process_local_file_run,
      !get_sparse_cloud_data_run.
    repeat split; apply run_with_same_path; trivial; now rewrite !P.
  - intro Hrel. unfold path_of, os_path_join.
    destruct (prefix "/" f) eqn:Ep.
    { apply prefix_spec in Ep. destruct Ep as [rest E]. now apply Hrel in E. }
    destruct (String.eqb (DATA_DIR env) "") eqn:Ee; simpl.
    { apply String.eqb_eq in Ee. exists "". split; [ reflexivity | ].
      left. auto. }
    apply String.eqb_neq in Ee.
    destruct (endswith (DATA_DIR env) "/") eqn:Es.
    + apply endswith_spec in Es. exists "". split; [ reflexivity | ].
      left. auto.
    + exists "/". split; [ reflexivity | ]. right.
      repeat split; trivial. intros pre E.
      assert (Ht : endswith (DATA_DIR env) "/" = true)
        by (apply endswith_spec; eauto).
      congruence.
Qed.

(* ================================================================= *)
(** ** X10: the coordinate names *)

(** [str_in] is the substring test. *)
Lemma str_in_spec (sub s : string) : str_in sub s = true <-> occurs sub s.
Proof.
  unfold occurs. induction s as [ | c s IH].
  - cbn [str_in]. rewrite orb_false_r, prefix_spec. split.
    + intros [rest H]. exists "", rest. exact H.
    + intros (pre & post & H). destruct pre; [ now exists post | ].
      discriminate.
  - cbn [str_in]. rewrite orb_true_iff, prefix_spec, IH. split.
    + intros [[rest H] | (pre & post & H)].
      * exists "", rest. exact H.
      * exists (String c pre), post. simpl. now rewrite H.
    + intros (pre & post & H). destruct pre as [ | c' pre].
      * left. now exists post.
      * right. exists pre, post. simpl in H. congruence.
Qed.

Lemma next_first_containing (key : string) (names : list string) :
  first_containing key names
    (next (fun k => str_in key (lower k)) names key).
Proof.
  unfold first_containing, next.
  destruct (find (fun k => str_in key (lower k)) names) as [k | ] eqn:E.
  - left. apply find_first in E. destruct E as (l1 & l2 & -> & Hk & Hl1).
    exists l1, l2. split; [ reflexivity | ]. split.
    + now apply str_in_spec.
    + intros n Hn Ho. apply str_in_spec in Ho.
      rewrite (Hl1 n Hn) in Ho. discriminate.
  - right. split; [ reflexivity | ].
    intros n Hn Ho. apply str_in_spec in Ho.
    pose proof (proj1 (find_none _ names) E n Hn) as Hf.
    simpl in Hf. congruence.
Qed.

(** X10. The latitude name is the first coordinate of the dataset, in the
    order of [ds.coords], whose lower-cased name contains "lat" anywhere,
    and the literal "lat" when no coordinate does; likewise the longitude
    name with "lon".  One coordinate can be both. *)
Theorem coordinate_names (ds : Dataset) :
  first_containing "lat" (coords ds) (resolve_lat ds)
  /\ first_containing "lon" (coords ds) (resolve_lon ds).
Proof.
  split; apply next_first_containing.
Qed.

(** Upper case, names that merely contain the key, and the default. *)
Example coordinate_names_examples :
  resolve_lat (mk_Dataset [] ["time"; "Platform"; "lat"]) = "Platform"
  /\ resolve_lon (mk_Dataset [] ["time"; "LONGITUDE"; "lat"]) = "LONGITUDE"
  /\ resolve_lat (mk_Dataset [] ["latlon"]) = "latlon"
  /\ resolve_lon (mk_Dataset [] ["latlon"]) = "latlon"
  /\ resolve_lat (mk_Dataset [] ["x"; "y"]) = "lat".
Proof. repeat split. Qed.

(* ================================================================= *)
(** ** X11, X12: the [/data] route beyond the binary payload *)

(** X11. The [/data] route never raises: whatever the request, it answers
    with a response, and the trace it leaves is the trace of
    [_extract_cloud_arrays].  When the extraction raises, the response is
    the error response of that very error, so that a missing file, a file
    that does not open and a file without a known field are all answered
    with status 500. *)
Theorem get_gpm_data_total (env : Env) (f : string)
                           (toplat bottomlat leftlon rightlon t : Qc)
                           (format : string) (tr : trace) :
  exists resp,
    get_gpm_data env f toplat bottomlat leftlon rightlon t format tr
    = (Ok resp,
       snd (_extract_cloud_arrays env f
              (mk_Bounds toplat bottomlat leftlon rightlon) t tr))
    /\ forall e,
         fst (_extract_cloud_arrays env f
                (mk_Bounds toplat bottomlat leftlon rightlon) t tr)
         = Raise e ->
         resp = ErrorResponse e.
Proof.
  unfold get_gpm_data, try_except, bind.
  destruct (_extract_cloud_arrays env f _ t tr) as [[a | e] tr'];
    cbn [fst snd].
  - unfold lift. destruct (np_len (valid_rain a)) as [n | e].
    + destruct (String.eqb format "bin").
      * destruct (struct_pack_If env n (max_val a)); eexists;
          (split; [ reflexivity | discriminate ]).
      * eexists. split; [ reflexivity | discriminate ].
    + eexists. split; [ reflexivity | discriminate ].
  - eexists. split; [ reflexivity | ]. intros e' H. congruence.
Qed.

(** X12. Every format other than "bin" selects the JSON payload, not only
    "json".  On a point set of [count] points it carries [count], the
    maximum rounded to two decimals, the bounding box of the request
    unchanged (not the ranges built from it), and the three sequences
    rounded element by element (latitudes and longitudes to three decimals,
    values to two): one-dimensional, of length [count], in the order of the
    extraction.  There is no limit on [count]. *)
Theorem get_gpm_data_json (env : Env) (f : string)
                          (toplat bottomlat leftlon rightlon t : Qc)
                          (format : string) (tr tr' : trace)
                          (a : CloudArrays) (count : nat) :
  _extract_cloud_arrays env f (mk_Bounds toplat bottomlat leftlon rightlon)
                        t tr
  = (Ok a, tr') ->
  point_set a count ->
  format <> "bin" ->
  exists lats lons vals,
    get_gpm_data env f toplat bottomlat leftlon rightlon t format tr
    = (Ok (JsonResponse count (cell_map (round_num env 2) (max_val a))
                        (mk_Bounds toplat bottomlat leftlon rightlon)
                        lats lons vals),
       tr')
    /\ flat lats = map (round_f32 env 3) (flat (valid_lats a))
    /\ flat lons = map (round_f32 env 3) (flat (valid_lons a))
    /\ flat vals = map (round_f32 env 2) (flat (valid_rain a))
    /\ shape vals = [count]
    /\ length (flat lats) = count
    /\ length (flat lons) = count
    /\ length (flat vals) = count.
Proof.
  intros Hx (Hs & Hla & Hlo & Hv) Hf.
  unfold get_gpm_data, try_except, bind. rewrite Hx.
  unfold lift, np_len. rewrite Hs.
  apply String.eqb_neq in Hf. rewrite Hf.
  do 3 eexists. split; [ reflexivity | ].
  unfold astype. cbn [shape flat]. rewrite !length_map.
  repeat split; assumption.
Qed.

(** The 2 x 2 example with format "xml": the JSON payload, with two
    points. *)
Lemma get_gpm_data_json_witness :
  match fst (get_gpm_data Reference.env0 "small.nc"
                          (num 90) (num (-90)) (num (-180)) (num 180)
                          (frac 1 10) "xml" []) with
  | Ok (JsonResponse count _ bounds lats lons vals) =>
      count = 2 /\ bounds = Reference.world /\ length (flat vals) = 2
  | _ => False
  end.
Proof.
  destruct (_extract_cloud_arrays Reference.env0 "small.nc"
              (mk_Bounds (num 90) (num (-90)) (num (-180)) (num 180))
              (frac 1 10) [])
    as [[a | e] tr'] eqn:E.
  - pose proof E as E'. vm_compute in E'. injection E' as <- _.
    destruct (get_gpm_data_json Reference.env0 "small.nc"
                (num 90) (num (-90)) (num (-180)) (num 180) (frac 1 10)
                "xml" [] tr' _ 2 E)
      as (lats & lons & vals & Hc & _ & _ & _ & _ & _ & _ & Hv).
    + repeat split.
    + discriminate.
    + rewrite Hc. simpl. repeat split. exact Hv.
  - vm_compute in E. discriminate E.
Defined.

(* ================================================================= *)
(** ** X13: the [/plot] route *)

Ltac plot_cases :=
  eexists; split; [ reflexivity | ]; repeat split; intros;
  repeat match goal with
         | H : exists _, _ |- _ => destruct H
         | H : _ /\ _ |- _ => destruct H
         | H : Ok _ = Ok _ |- _ => inversion H; clear H; subst
         | H : ImageResponse _ = ImageResponse _ |- _ =>
             inversion H; clear H; subst
         end;
  try congruence; eauto 10.

(** X13. The [/plot] route never raises and leaves the trace of
    [process_local_file]: the dataset is closed before anything is drawn.
    It answers with the image exactly when [process_local_file] returns a
    grid, the date is parsed from the filename, and the heat map of that
    grid, for the bounding box of the request and the title "GPM IMERG",
    is drawn; in every other case it answers with the error response of the
    first of the three that raised. *)
Theorem plot_gpm_file_total (env : Env) (utils : Utils) (f : string)
                            (toplat bottomlat leftlon rightlon : Qc)
                            (tr : trace) :
  exists resp,
    plot_gpm_file env utils f toplat bottomlat leftlon rightlon tr
    = (Ok resp,
       snd (process_local_file env f
              (mk_Bounds toplat bottomlat leftlon rightlon) tr))
    /\ (forall img,
          resp = ImageResponse img
          <-> exists lats lons data date_clean,
                fst (process_local_file env f
                       (mk_Bounds toplat bottomlat leftlon rightlon) tr)
                = Ok (lats, lons, data)
                /\ parse_gpm_filename utils f = Ok date_clean
                /\ generate_heatmap utils lats lons data
                     (mk_Bounds toplat bottomlat leftlon rightlon)
                     "GPM IMERG" date_clean
                   = Ok img)
    /\ (forall e,
          fst (process_local_file env f
                 (mk_Bounds toplat bottomlat leftlon rightlon) tr)
          = Raise e ->
          resp = PlotError e)
    /\ (forall lats lons data e,
          fst (process_local_file env f
                 (mk_Bounds toplat bottomlat leftlon rightlon) tr)
          = Ok (lats, lons, data) ->
          parse_gpm_filename utils f = Raise e ->
          resp = PlotError e)
    /\ (forall lats lons data date_clean e,
          fst (process_local_file env f
                 (mk_Bounds toplat bottomlat leftlon rightlon) tr)
          = Ok (lats, lons, data) ->
          parse_gpm_filename utils f = Ok date_clean ->
          generate_heatmap utils lats lons data
            (mk_Bounds toplat bottomlat leftlon rightlon)
            "GPM IMERG" date_clean
          = Raise e ->
          resp = PlotError e).
Proof.
  unfold plot_gpm_file, try_except, bind.
  destruct (process_local_file env f _ tr) as [[[[lats lons] data] | e] tr'];
    cbn [fst snd]; [ | plot_cases ].
  unfold lift.
  destruct (parse_gpm_filename utils f) as [d | e] eqn:Ep; [ | plot_cases ].
  destruct (generate_heatmap utils lats lons data _ "GPM IMERG" d)
    as [img | e] eqn:Eh; plot_cases.
Qed.

(* ================================================================= *)
(** ** X14: from the file to the binary payload *)

Lemma run_with_returns {A} (env : Env) (f : string) (tr : trace)
                       (body : Dataset -> string -> result A)
                       (d : Dataset) (v : string) (a : A) :
  path_exists env (path_of env f) = true ->
  opened env (path_of env f) = Some d ->
  resolve_var d = Some v ->
  body d v = Ok a ->
  run_with env f tr body
  = (Ok a,
     tr ++ opening_of env (path_of env f) tr ++ [EvClose (fresh tr)]).
Proof.
  intros He Ho Hv Hb. unfold run_with, opened, opening_of in *.
  rewrite He, open_with_fallback_run.
  destruct (open_dataset env (path_of env f) (Some "Grid")) as [d' | ];
    [ | destruct (open_dataset env (path_of env f) None) as [d' | ] ];
    try discriminate.
  all: injection Ho as ->; unfold finish; simpl; rewrite Hv, Hb.
  all: now rewrite <- app_assoc.
Qed.

Lemma length_payload (env : Env) (a : CloudArrays) (count : nat) :
  point_set a count -> length (payload env a count) = 8 + 12 * count.
Proof.
  intros (_ & Hla & Hlo & Hv). unfold payload.
  rewrite !length_app, !length_tobytes, Hla, Hlo, Hv. simpl. lia.
Qed.

Lemma decode_payload (env : Env) (a : CloudArrays) (count : nat) :
  point_set a count ->
  (N.of_nat count < 2 ^ 32)%N ->
  decode_bin (payload env a count)
  = Some (mk_Decoded count (cast32 (to_float32 env) (max_val a))
                     (flat (valid_lats a)) (flat (valid_lons a))
                     (flat (valid_rain a)) []).
Proof.
  intros (_ & Hla & Hlo & Hv) Hc.
  pose proof (N_of_le_uint32 (N.of_nat count) Hc) as Hn.
  unfold payload, tobytes.
  destruct (cast32 (to_float32 env) (max_val a)) as [m0 m1 m2 m3].
  unfold le_uint32 in *. cbn [app float32_bytes byte0 byte1 byte2 byte3].
  unfold decode_bin. rewrite Hn, Nat2N.id.
  rewrite <- Hla at 1. rewrite read_floats_tobytes.
  rewrite <- Hlo at 1. rewrite read_floats_tobytes.
  rewrite <- Hv at 1.
  rewrite <- (app_nil_r (flat_map float32_bytes (flat (valid_rain a)))).
  now rewrite read_floats_tobytes.
Qed.

Lemma fits_py_float (env : Env) (x : np_float) :
  fits_float32 env x -> fits_float32 env (py_float x).
Proof. now destruct x. Qed.

(** X14. From the file to the wire.  When the path exists, a layout opens,
    the dataset has a candidate field and stage 4 yields a cropped grid,
    the [/data] route with format "bin" answers with a payload of
    8 + 12 * n bytes, where n is the number of cells of that grid that pass
    the threshold test (a number strictly greater than the threshold as
    rounded to the precision of the cell), as long as n fits the 32 bits of
    the header and the maximum of the grid, like 0.0, fits its 32-bit
    float; decoding the payload gives n back and leaves no byte; and the
    request leaves the trace of the opening followed by one close of the
    handle it opened. *)
Theorem data_route_end_to_end (env : Env) (f : string)
                              (toplat bottomlat leftlon rightlon t : Qc)
                              (tr : trace) (d : Dataset) (v : string)
                              (lats lons data : ndarray np_float)
                              (La Lo : nat) :
  path_exists env (path_of env f) = true ->
  opened env (path_of env f) = Some d ->
  resolve_var d = Some v ->
  extract_arrays
    (crop env d v (resolve_lat d) (resolve_lon d)
          (mk_Bounds toplat bottomlat leftlon rightlon))
    v (resolve_lat d) (resolve_lon d)
  = Ok (lats, lons, data) ->
  cropped_grid lats lons data La Lo ->
  (N.of_nat (count_above (passes env t) (flat data)) < 2 ^ 32)%N ->
  fits_float32 env (grid_max (flat data)) ->
  fits_float32 env (Num Double (num 0)) ->
  exists content decoded,
    get_gpm_data env f toplat bottomlat leftlon rightlon t "bin" tr
    = (Ok (BinaryResponse content),
       tr ++ opening_of env (path_of env f) tr ++ [EvClose (fresh tr)])
    /\ length content = 8 + 12 * count_above (passes env t) (flat data)
    /\ decode_bin content = Some decoded
    /\ d_count decoded = count_above (passes env t) (flat data)
    /\ d_rest decoded = [].
Proof.
  intros He Ho Hv Hx Hg Hc Hm H0.
  destruct (sparse_filter env lats lons data t) as [a | e] eqn:Ea.
  2: { rewrite (sparse_filter_run env lats lons data La Lo t Hg) in Ea.
       discriminate. }
  pose proof (sparse_filter_point_set env lats lons data La Lo t a Hg Ea)
    as Hp.
  assert (Hfit : fits_float32 env (max_val a)).
  { rewrite (sparse_filter_run env lats lons data La Lo t Hg) in Ea.
    injection Ea as <-. cbn [max_val].
    destruct (0 <? _); [ now apply fits_py_float | exact H0 ]. }
  assert (Hbody : cloud_arrays_of env d v
                    (mk_Bounds toplat bottomlat leftlon rightlon) t
                  = Ok a).
  { unfold cloud_arrays_of. rewrite Hx. exact Ea. }
  pose proof (run_with_returns env f tr
                (fun d v => cloud_arrays_of env d v
                              (mk_Bounds toplat bottomlat leftlon rightlon) t)
                d v a He Ho Hv Hbody) as Hrun.
  rewrite <- extract_cloud_arrays_run in Hrun.
  destruct Hp as (Hs & Hrest).
  rewrite (get_gpm_data_bin env f toplat bottomlat leftlon rightlon t tr _
             a _ Hrun Hs).
  apply N.ltb_lt in Hc. rewrite Hc. apply N.ltb_lt in Hc.
  rewrite (pack_f_fits env (max_val a) Hfit).
  exists (payload env a (count_above (passes env t) (flat data))).
  eexists. split; [ reflexivity | ].
  split; [ now apply length_payload | ].
  split; [ now apply decode_payload | ]. split; reflexivity.
Qed.

(** The IMERG example at threshold 2.5: four of the six cells pass, the
    payload has 8 + 12 * 4 bytes. *)
Lemma data_route_end_to_end_witness :
  exists content,
    fst (get_gpm_data Reference.env0 "imerg.HDF5"
                      (num 90) (num (-90)) (num (-180)) (num 180)
                      (frac 25 10) "bin" [])
    = Ok (BinaryResponse content)
    /\ length content = 56.
Proof.
  destruct (data_route_end_to_end Reference.env0 "imerg.HDF5"
              (num 90) (num (-90)) (num (-180)) (num 180) (frac 25 10) []
              Reference.imerg_grid "precipitation"
              (mk_ndarray [2] (singles [num 0; num 1]))
              (mk_ndarray [3] (singles [num 10; num 20; num 30]))
              (mk_ndarray [2; 3]
                 (singles [num 1; num 2; num 3; num 5; num 6; num 7]))
              2 3)
    as (content & decoded & Hr & Hl & _); try reflexivity.
  - repeat split.
  - exists content. rewrite Hr. split; [ reflexivity | exact Hl ].
Defined.

(* ================================================================= *)
(** ** X15: square grids *)

(** X15. When there are as many latitudes as longitudes, the shape test of
    stage 4 cannot tell the layouts apart and always transposes: for a
    field stored as (lat, lon) with n latitudes and n longitudes,
    [extract_arrays] returns a grid whose cell (i, j) is cell (j, i) of the
    field, so that the value measured at latitude j and longitude i is
    served at latitude i and longitude j. *)
Theorem square_grid_transposed (ds : Dataset) (v la lo : string)
                               (field : DataArray)
                               (lats lons : ndarray np_float)
                               (n : nat) :
  find (fun p => String.eqb v (fst p)) (variables ds) = Some (v, field) ->
  dims field = [la; lo] ->
  shape (values field) = [n; n] ->
  length (flat (values field)) = n * n ->
  n <> 1 ->
  getitem ds la = Ok lats ->
  shape lats = [n] ->
  getitem ds lo = Ok lons ->
  shape lons = [n] ->
  exists data,
    extract_arrays ds v la lo = Ok (lats, lons, data)
    /\ shape data = [n; n]
    /\ forall i j, i < n -> j < n ->
         cell n (flat data) i j = cell n (flat (values field)) j i.
Proof.
  intros Hf _ Hs Hl Hn Hla Hsla Hlo Hslo.
  assert (Hv : getitem ds v = Ok (values field))
    by (unfold getitem; now rewrite Hf).
  assert (Hsq : squeeze (values field)
                = mk_ndarray [n; n] (flat (values field))).
  { unfold squeeze. rewrite Hs. simpl.
    apply Nat.eqb_neq in Hn. now rewrite Hn. }
  unfold extract_arrays, np_len. rewrite Hv, Hla, Hlo. simpl.
  rewrite Hsla, Hslo, Hsq. simpl.
  unfold orient, T. cbn [shape flat].
  rewrite (proj2 (shape_eqb_eq [n; n] [n; n]) eq_refl).
  eexists. split; [ reflexivity | ]. split; [ reflexivity | ].
  intros i j Hi Hj. cbn [flat]. now apply cell_transpose_flat.
Qed.

(** The 2 x 2 example, stored as (lat, lon) = [[0.0, 0.5], [0.0625, 5.0]]:
    the grid served is [[0.0, 0.0625], [0.5, 5.0]]. *)
Lemma square_grid_transposed_witness :
  exists data,
    extract_arrays Reference.small_grid "precipitation" "lat" "lon"
    = Ok (mk_ndarray [2] (singles [num 0; num 1]),
          mk_ndarray [2] (singles [num 0; num 1]),
          data)
    /\ shape data = [2; 2]
    /\ cell 2 (flat data) 0 1 = Some (Num Single (frac 1 16)).
Proof.
  destruct (square_grid_transposed Reference.small_grid
              "precipitation" "lat" "lon"
              (mk_DataArray ["lat"; "lon"]
                 (mk_ndarray [2; 2]
                    (singles [num 0; frac 1 2; frac 1 16; num 5])))
              (mk_ndarray [2] (singles [num 0; num 1]))
              (mk_ndarray [2] (singles [num 0; num 1])) 2)
    as (data & He & Hs & Hc); try reflexivity.
  - discriminate.
  - exists data. split; [ exact He | ]. split; [ exact Hs | ].
    rewrite (Hc 0 1) by lia. reflexivity.
Defined.
